(** * Snapshot test utilities: a shallow embedding and its properties

    The Go package [snapshot] loads input fixtures ([GetTestInput]), matches
    outputs against recorded snapshots ([Match]), compares streams
    ([StringComparator], [StringDiffComparator], [CmpDiffComparator]) and
    serialises values ([AsJSON]).

    Modelling conventions.
    - A Go [string] is a Rocq [string] (a sequence of 8-bit characters); a
      [[]byte] and the contents of a file are a [list ascii].
    - The file system, the table of open files and the test log form the
      [World]; code that touches them runs in the monad [M], whose outcomes
      are a normal return, [t.Fatalf] (the test is aborted) or a Go panic.
    - An [io.Reader] is a value of type [Reader]; reading one to its end
      ([readAll], the model of [io.Copy] into a buffer and of [io.ReadAll])
      yields the bytes delivered and the error that ended the stream, if any.
    - Behaviour of packages outside the repository that cannot be computed
      here (Unicode tables, the report of go-cmp, the JSON encoder) is taken
      as Section variables, with the documented facts as hypotheses. *)

From Stdlib Require Import String Ascii NArith ZArith Lia List Bool.
From stdpp Require Import base gmap strings list.
Import ListNotations.
Local Open Scope string_scope.

(* ===================================================================== *)
(** ** Outcomes and the test monad *)
(* ===================================================================== *)

(** The three ways a call made from a test can end. *)
Inductive Outcome (A : Type) : Type :=
| Ret (a : A)            (* normal return *)
| Fatal (msg : string)   (* t.Fatalf: the test is marked failed and stops *)
| Panic (msg : string).  (* run-time panic *)
Arguments Ret {A} a.
Arguments Fatal {A} msg.
Arguments Panic {A} msg.

(** An open file description: the path it was opened at and its offset. *)
Record OpenFile : Type := mkOpenFile { of_path : string; of_off : nat }.

(** What the package can observe and change. The three sets are the ways
    storage may refuse an operation; they are never changed by the package. *)
Record World : Type := mkWorld {
  files : gmap string (list ascii);  (* regular files and their bytes *)
  dirs : gset string;                (* directories made by MkdirAll *)
  open_denied : gset string;         (* os.Open fails, not with ENOENT *)
  mkdir_denied : gset string;        (* os.MkdirAll fails *)
  create_denied : gset string;       (* os.Create fails *)
  fds : list OpenFile;               (* open files, an os.File is an index *)
  logs : list string                 (* lines written by t.Log and t.Logf *)
}.

Definition set_files (f : gmap string (list ascii)) (w : World) : World :=
  mkWorld f (dirs w) (open_denied w) (mkdir_denied w) (create_denied w)
          (fds w) (logs w).
Definition set_dirs (d : gset string) (w : World) : World :=
  mkWorld (files w) d (open_denied w) (mkdir_denied w) (create_denied w)
          (fds w) (logs w).
Definition set_fds (l : list OpenFile) (w : World) : World :=
  mkWorld (files w) (dirs w) (open_denied w) (mkdir_denied w)
          (create_denied w) l (logs w).
Definition set_logs (l : list string) (w : World) : World :=
  mkWorld (files w) (dirs w) (open_denied w) (mkdir_denied w)
          (create_denied w) (fds w) l.

Definition M (A : Type) : Type := World -> Outcome A * World.

Definition mret {A} (a : A) : M A := fun w => (Ret a, w).

Definition mbind {A B} (c : M A) (k : A -> M B) : M B :=
  fun w =>
    match c w with
    | (Ret a, w') => k a w'
    | (Fatal m, w') => (Fatal m, w')
    | (Panic m, w') => (Panic m, w')
    end.

Declare Scope test_scope.
Delimit Scope test_scope with test.
Notation "'do' x <- c ; k" := (mbind c (fun x => k))
  (at level 10, x name, c at level 100, k at level 200) : test_scope.
Notation "'run' c ; k" := (mbind c (fun _ => k))
  (at level 10, c at level 100, k at level 200) : test_scope.
Local Open Scope test_scope.

(** [t.Logf] and [t.Log]. *)
Definition t_Log (line : string) : M unit :=
  fun w => (Ret tt, set_logs (logs w ++ [line]) w).

(** [t.Fatalf]: log the message, fail the test, stop the calling goroutine. *)
Definition t_Fatalf {A} (msg : string) : M A :=
  fun w => (Fatal msg, set_logs (logs w ++ [msg]) w).

Definition go_panic {A} (msg : string) : M A := fun w => (Panic msg, w).

(* ===================================================================== *)
(** ** Storage: package os *)
(* ===================================================================== *)

(** Result of [os.Open]: a handle, an error for which [os.IsNotExist] holds,
    or any other error. *)
Inductive OpenResult : Type :=
| OpenOk (fd : nat)
| OpenNotExist
| OpenErr (e : string).

Definition os_Open (p : string) : M OpenResult :=
  fun w =>
    if decide (p ∈ open_denied w) then
      (Ret (OpenErr ("open " ++ p ++ ": permission denied")), w)
    else
      match files w !! p with
      | Some _ =>
          (Ret (OpenOk (length (fds w))),
           set_fds (fds w ++ [mkOpenFile p 0]) w)
      | None => (Ret OpenNotExist, w)
      end.

(** [os.MkdirAll]: [None] is the nil error. *)
Definition os_MkdirAll (d : string) : M (option string) :=
  fun w =>
    if decide (d ∈ mkdir_denied w) then
      (Ret (Some ("mkdir " ++ d ++ ": permission denied")), w)
    else (Ret None, set_dirs ({[d]} ∪ dirs w) w).

(** [os.Create]: create or truncate, opened for reading and writing. *)
Definition os_Create (p : string) : M (nat + string) :=
  fun w =>
    if decide (p ∈ create_denied w) then
      (Ret (inr ("open " ++ p ++ ": permission denied")), w)
    else
      (Ret (inl (length (fds w))),
       set_fds (fds w ++ [mkOpenFile p 0]) (set_files (<[p := []]> (files w)) w)).

(** The bytes of a file after [data] is written at offset [off]; a gap
    past the end is filled with zero bytes. *)
Definition write_at (off : nat) (data c : list ascii) : list ascii :=
  take off c ++ replicate (off - length c) zero ++ data
    ++ drop (off + length data) c.

Definition err_closed : string := "file already closed".

(** [Write] on an open file; the only failure modelled is a stale handle. *)
Definition file_Write (fd : nat) (data : list ascii) : M (option string) :=
  fun w =>
    match fds w !! fd with
    | Some f =>
        let c := default [] (files w !! of_path f) in
        (Ret None,
         set_fds (<[fd := mkOpenFile (of_path f) (of_off f + length data)]> (fds w))
           (set_files (<[of_path f := write_at (of_off f) data c]> (files w)) w))
    | None => (Ret (Some err_closed), w)
    end.

(** [file.Seek(0, 0)]. *)
Definition file_Seek0 (fd : nat) : M (option string) :=
  fun w =>
    match fds w !! fd with
    | Some f => (Ret None, set_fds (<[fd := mkOpenFile (of_path f) 0]> (fds w)) w)
    | None => (Ret (Some err_closed), w)
    end.

(** Reading an open file from its offset to the end of the file. *)
Definition file_readAll (fd : nat) : M (list ascii * option string) :=
  fun w =>
    match fds w !! fd with
    | Some f =>
        let c := default [] (files w !! of_path f) in
        (Ret (drop (of_off f) c, None),
         set_fds (<[fd := mkOpenFile (of_path f) (of_off f `max` length c)]> (fds w)) w)
    | None => (Ret ([], Some err_closed), w)
    end.

(* ===================================================================== *)
(** ** Readers: package io *)
(* ===================================================================== *)

(** The readers the package builds or receives. [MemReader d e] is any
    finite source held outside storage ([strings.Reader], [bytes.Buffer],
    a pipe): it delivers [d] and then ends with EOF ([None]) or with the
    error [e]. A reader stands for the bytes still to come; the package
    reads each reader it is given once, so the position inside a
    [MemReader] is not tracked. The position inside a file is: it lives in
    the table of open files and is shared by all uses of the handle. *)
Inductive Reader : Type :=
| NilReader                                   (* the nil io.Reader *)
| MemReader (data : list ascii) (err : option string)
| FileReader (fd : nat)                       (* an open os.File *)
| TeeReader (src : Reader) (fd : nat)         (* io.TeeReader(src, file) *)
| NopCloser (r : Reader).                     (* io.NopCloser(r) *)

(** Read [r] until it ends: the model of [io.Copy(buf, r)] and of
    [io.ReadAll(r)]. The result is the bytes delivered and the error the
    copy reports (EOF is not an error). A tee writes what it reads. *)
Fixpoint readAll (r : Reader) : M (list ascii * option string) :=
  match r with
  | NilReader => go_panic "runtime error: invalid memory address or nil pointer dereference"
  | MemReader d e => mret (d, e)
  | FileReader fd => file_readAll fd
  | TeeReader src fd =>
      do res <- readAll src;
      do werr <- file_Write fd (fst res);
      match werr with
      | Some e => mret (fst res, Some e)
      | None => mret res
      end
  | NopCloser r' => readAll r'
  end.

(** Readers with no nil inside. *)
Fixpoint nonnil (r : Reader) : bool :=
  match r with
  | NilReader => false
  | MemReader _ _ => true
  | FileReader _ => true
  | TeeReader src _ => nonnil src
  | NopCloser r' => nonnil r'
  end.

(** [readToString] of the package: [io.Copy] into a [strings.Builder]. *)
Definition readToString (r : Reader) : M (string * option string) :=
  do res <- readAll r;
  mret (string_of_list_ascii (fst res), snd res).

(* ===================================================================== *)
(** ** Paths: package path/filepath *)
(* ===================================================================== *)

(** The test handle: [t.Name()] and the source file of the test that calls
    into the package, which [runtime.Caller(2)] reports. *)
Record T : Type := mkT { t_Name : string; t_File : string }.

(** Position of the last separator of a path, if it has one. *)
Fixpoint last_slash (s : string) : option nat :=
  match s with
  | EmptyString => None
  | String c rest =>
      match last_slash rest with
      | Some i => Some (S i)
      | None => if Ascii.eqb c "/" then Some 0 else None
      end
  end.

(** [strings.Split(path, "/")]: the elements between the separators, empty
    ones included. *)
Fixpoint splitSlash (s : string) : list string :=
  match s with
  | EmptyString => [""]
  | String c rest =>
      if Ascii.eqb c "/" then "" :: splitSlash rest
      else match splitSlash rest with
           | e :: es => String c e :: es
           | [] => [String c ""]
           end
  end.

(** The loop of [filepath.Clean] over the elements of a path. [kept] holds
    the elements written so far, the last one first. An empty element and
    [.] are dropped; [..] removes the element before it if there is one
    that is not itself [..], is kept at the head of a path that is not
    rooted, and is dropped at the root. *)
Fixpoint cleanElements (rooted : bool) (kept elems : list string) : list string :=
  match elems with
  | [] => rev kept
  | e :: rest =>
      if String.eqb e "" || String.eqb e "." then cleanElements rooted kept rest
      else if String.eqb e ".." then
        match kept with
        | top :: below =>
            if String.eqb top ".."
            then cleanElements rooted (if rooted then kept else e :: kept) rest
            else cleanElements rooted below rest
        | [] => cleanElements rooted (if rooted then [] else [e]) rest
        end
      else cleanElements rooted (e :: kept) rest
  end.

(** [filepath.Clean] on a system whose separator is the slash and whose
    paths have no volume name: the shortest path equivalent to [path] by
    lexical processing; the empty path becomes [.]. *)
Definition filepath_Clean (path : string) : string :=
  match path with
  | EmptyString => "."
  | String c _ =>
      let rooted := Ascii.eqb c "/" in
      match cleanElements rooted [] (splitSlash path), rooted with
      | [], true => "/"
      | [], false => "."
      | kept, true => "/" ++ String.concat "/" kept
      | kept, false => String.concat "/" kept
      end
  end.

(** [filepath.Dir]: the path up to its last separator, cleaned. *)
Definition filepath_Dir (p : string) : string :=
  filepath_Clean
    match last_slash p with
    | None => ""
    | Some i => substring 0 (S i) p
    end.

Fixpoint dropEmpty (elems : list string) : list string :=
  match elems with
  | [] => []
  | e :: rest => if String.eqb e "" then dropEmpty rest else elems
  end.

(** [filepath.Join]: the elements from the first non-empty one on, joined
    with separators and cleaned; the empty path if all are empty. *)
Definition filepath_Join (elems : list string) : string :=
  match dropEmpty elems with
  | [] => ""
  | l => filepath_Clean (String.concat "/" l)
  end.

Arguments filepath_Clean : simpl never.
Arguments filepath_Dir : simpl never.
Arguments filepath_Join : simpl never.



(** [getSnapshotFilePath]: [name ++ ext] inside the directory named after
    the test, inside [__snapshots__], next to the test's source file. *)
Definition getSnapshotFilePath (t : T) (name ext : string) : string :=
  filepath_Join [filepath_Dir (t_File t); "__snapshots__"; t_Name t; name ++ ext].

Arguments getSnapshotFilePath : simpl never.

(* ===================================================================== *)
(** ** Quoting: packages unicode/utf8 and strconv *)
(* ===================================================================== *)

Definition RuneError : N := 0xFFFD.

Definition between (lo hi b : N) : bool := ((lo <=? b) && (b <=? hi))%N.

(** Size of the encoding announced by a leading byte and the range the
    second byte must lie in; size 1 marks an invalid leading byte. *)
Definition utf8_first (b0 : N) : nat * N * N :=
  if between 0xC2 0xDF b0 then (2, 0x80%N, 0xBF%N)
  else if (b0 =? 0xE0)%N then (3, 0xA0%N, 0xBF%N)
  else if between 0xE1 0xEC b0 then (3, 0x80%N, 0xBF%N)
  else if (b0 =? 0xED)%N then (3, 0x80%N, 0x9F%N)
  else if between 0xEE 0xEF b0 then (3, 0x80%N, 0xBF%N)
  else if (b0 =? 0xF0)%N then (4, 0x90%N, 0xBF%N)
  else if between 0xF1 0xF3 b0 then (4, 0x80%N, 0xBF%N)
  else if (b0 =? 0xF4)%N then (4, 0x80%N, 0x8F%N)
  else (1, 0%N, 0%N).

Definition low6 (b : N) : N := N.land b 0x3F.

(** [utf8.DecodeRuneInString]: the first rune of [s] and its width. *)
Definition utf8_DecodeRuneInString (s : string) : N * nat :=
  match list_ascii_of_string s with
  | [] => (RuneError, 0)
  | c0 :: rest =>
      let b0 := N_of_ascii c0 in
      if (b0 <? 0x80)%N then (b0, 1)
      else
        let '(sz, lo, hi) := utf8_first b0 in
        match sz, N_of_ascii <$> rest with
        | 2, b1 :: _ =>
            if between lo hi b1
            then (N.lor (N.shiftl (N.land b0 0x1F) 6) (low6 b1), 2)
            else (RuneError, 1)
        | 3, b1 :: b2 :: _ =>
            if between lo hi b1 && between 0x80 0xBF b2
            then (N.lor (N.shiftl (N.land b0 0x0F) 12)
                    (N.lor (N.shiftl (low6 b1) 6) (low6 b2)), 3)
            else (RuneError, 1)
        | 4, b1 :: b2 :: b3 :: _ =>
            if between lo hi b1 && between 0x80 0xBF b2 && between 0x80 0xBF b3
            then (N.lor (N.shiftl (N.land b0 0x07) 18)
                    (N.lor (N.shiftl (low6 b1) 12)
                       (N.lor (N.shiftl (low6 b2) 6) (low6 b3))), 4)
            else (RuneError, 1)
        | _, _ => (RuneError, 1)
        end
  end.

Definition utf8_ValidRune (r : N) : bool :=
  ((r <? 0xD800) || between 0xE000 0x10FFFF r)%N.

Definition byte_string (bs : list N) : string :=
  string_of_list_ascii (ascii_of_N <$> bs).

(** [utf8.AppendRune] onto the empty string. *)
Definition utf8_EncodeRune (r : N) : string :=
  let tail k := N.lor 0x80 (low6 (N.shiftr r k)) in
  if (r <? 0x80)%N then byte_string [r]
  else if (r <? 0x800)%N then byte_string [N.lor 0xC0 (N.shiftr r 6); tail 0%N]
  else if negb (utf8_ValidRune r) then byte_string [0xEF; 0xBF; 0xBD]%N
  else if (r <? 0x10000)%N
       then byte_string [N.lor 0xE0 (N.shiftr r 12); tail 6%N; tail 0%N]
  else byte_string [N.lor 0xF0 (N.shiftr r 18); tail 12%N; tail 6%N; tail 0%N].

Definition lowerhex (n : N) : ascii :=
  nth (N.to_nat n) (list_ascii_of_string "0123456789abcdef") "0"%char.

(** The [k] hexadecimal digits of [r] that end at bit [0]. *)
Fixpoint hex_digits (k : nat) (r : N) : string :=
  match k with
  | O => ""
  | S k' => hex_digits k' (N.shiftr r 4) ++ String (lowerhex (N.land r 0xF)) ""
  end.

Definition BACKSLASH : string := String (ascii_of_N 92) "".
Definition DQUOTE : string := String (ascii_of_N 34) "".
Definition NL : string := String (ascii_of_N 10) "".

(** The escape [strconv] writes for a rune that is not printed as it is. *)
Definition escape_rune (r : N) : string :=
  if (r =? 7)%N then BACKSLASH ++ "a"
  else if (r =? 8)%N then BACKSLASH ++ "b"
  else if (r =? 12)%N then BACKSLASH ++ "f"
  else if (r =? 10)%N then BACKSLASH ++ "n"
  else if (r =? 13)%N then BACKSLASH ++ "r"
  else if (r =? 9)%N then BACKSLASH ++ "t"
  else if (r =? 11)%N then BACKSLASH ++ "v"
  else if ((r <? 0x20) || (r =? 0x7F))%N then BACKSLASH ++ "x" ++ hex_digits 2 r
  else if negb (utf8_ValidRune r) then BACKSLASH ++ "u" ++ hex_digits 4 RuneError
  else if (r <? 0x10000)%N then BACKSLASH ++ "u" ++ hex_digits 4 r
  else BACKSLASH ++ "U" ++ hex_digits 8 r.

(* ===================================================================== *)
(** ** Values compared by go-cmp *)
(* ===================================================================== *)

(** The two kinds of value the package hands to [cmp.Diff]. *)
Inductive CmpValue : Type :=
| CmpString (s : string)        (* a Go string *)
| CmpBytes (b : list ascii).    (* a non-nil []byte *)

(** [cmp.Equal] without options: values of different types are never
    equal; strings are compared with [==], byte slices element by element. *)
Definition cmp_Equal (x y : CmpValue) : bool :=
  match x, y with
  | CmpString a, CmpString b => String.eqb a b
  | CmpBytes a, CmpBytes b => bool_decide (a = b)
  | _, _ => false
  end.

(* ===================================================================== *)
(** ** Values handed to AsJSON *)
(* ===================================================================== *)

(** An [interface{}] argument, as far as [AsJSON] distinguishes values. A
    function value is non-nil, pure and terminating: it carries the text of
    its type, the number of arguments it requires and the values a call
    returns. *)
#[local] Unset Elimination Schemes.
Inductive GoValue : Type :=
| VNil
| VBool (b : bool)
| VInt (n : Z)
| VString (s : string)
| VSlice (xs : list GoValue)
| VStruct (fields : list (string * GoValue))
| VChan (ty : string)
| VFunc (ty : string) (numIn : nat) (results : list GoValue).
#[local] Set Elimination Schemes.

(** [reflect.ValueOf(i).Kind() == reflect.Func]. *)
Definition is_Func (v : GoValue) : bool :=
  match v with VFunc _ _ _ => true | _ => false end.

(* ===================================================================== *)
(** ** Options *)
(* ===================================================================== *)

(** [SnapshotCreator]: [func() (io.Reader, error)]. *)
Definition SnapshotCreator : Type := M (Reader * option string).

(** [Comparator]: [func(expected, actual io.Reader) (ok bool, msg string)]. *)
Definition Comparator : Type := Reader -> Reader -> M (bool * string).

(** [ReaderNormaliser]: [func(io.Reader) io.Reader]. *)
Definition ReaderNormaliser : Type := Reader -> M Reader.

Record GetTestInputOptions : Type := mkGetTestInputOptions {
  in_SnapshotName : string;
  in_FileExtension : string;
  CreateSnapshot : option SnapshotCreator  (* None is the nil function *)
}.

Definition GetTestInputOption : Type := GetTestInputOptions -> GetTestInputOptions.

Record MatchOptions : Type := mkMatchOptions {
  out_SnapshotName : string;
  out_FileExtension : string;
  opt_Comparator : Comparator;
  opt_ReaderNormaliser : ReaderNormaliser
}.

Definition MatchOption : Type := MatchOptions -> MatchOptions.

Definition WithInputSnapshotName (name : string) : GetTestInputOption :=
  fun o => mkGetTestInputOptions name (in_FileExtension o) (CreateSnapshot o).

Definition WithInputSnapshotFileExtension (ext : string) : GetTestInputOption :=
  fun o => mkGetTestInputOptions (in_SnapshotName o) ext (CreateSnapshot o).

Definition WithCreateSnapshot (r : SnapshotCreator) : GetTestInputOption :=
  fun o => mkGetTestInputOptions (in_SnapshotName o) (in_FileExtension o) (Some r).

Definition WithInputSnapshotReader (r : Reader) : GetTestInputOption :=
  WithCreateSnapshot (mret (r, None)).

Definition WithOutputSnapshotName (name : string) : MatchOption :=
  fun o => mkMatchOptions name (out_FileExtension o) (opt_Comparator o)
             (opt_ReaderNormaliser o).

Definition WithOutputSnapshotFileExtension (ext : string) : MatchOption :=
  fun o => mkMatchOptions (out_SnapshotName o) ext (opt_Comparator o)
             (opt_ReaderNormaliser o).

Definition WithComparator (cmp : Comparator) : MatchOption :=
  fun o => mkMatchOptions (out_SnapshotName o) (out_FileExtension o) cmp
             (opt_ReaderNormaliser o).

Definition WithReaderNormaliser (rn : ReaderNormaliser) : MatchOption :=
  fun o => mkMatchOptions (out_SnapshotName o) (out_FileExtension o)
             (opt_Comparator o) rn.

(** [for _, optFn := range optFns { optFn(&opts) }]. *)
Definition applyOptions {O : Type} (optFns : list (O -> O)) (opts : O) : O :=
  fold_left (fun o optFn => optFn o) optFns opts.

(** [NopReaderNormaliser]: the reader is passed through. *)
Definition NopReaderNormaliser : ReaderNormaliser := fun r => mret r.

(** [GetTestInput]'s creation of the artifact: the directory, then the
    file; the stream returned copies what is read from [src] to the file. *)
Definition createInputSnapshot (p : string) (src : Reader) : M Reader :=
  run t_Log "creating new input snapshot";
  do merr <- os_MkdirAll (filepath_Dir p);
  match merr with
  | Some e => t_Fatalf ("failed to create input snapshot file " ++ p ++ ": " ++ e)
  | None =>
      do c <- os_Create p;
      match c with
      | inr e =>
          t_Fatalf ("failed to open newly created snapshot file: " ++ p ++ ": " ++ e)
      | inl file => mret (TeeReader src file)
      end
  end.

(** [io.Copy(io.MultiWriter(file, actualCopy), actual)]: what was read is
    written to the file and kept in the buffer; the result is the buffer
    and the error of the copy. *)
Definition copyToFileAndBuffer (file : nat) (actual : Reader)
  : M (list ascii * option string) :=
  do res <- readAll actual;
  do werr <- file_Write file (fst res);
  match werr with
  | Some e => mret (fst res, Some e)
  | None => mret res
  end.

(** [Match]'s creation of the artifact on the first run: the pair returned
    is the new [expected] and the new [actual]. *)
Definition createOutputSnapshot (p : string) (actual : Reader)
  : M (Reader * Reader) :=
  run t_Log "creating new output snapshot";
  do merr <- os_MkdirAll (filepath_Dir p);
  match merr with
  | Some e => t_Fatalf ("failed to create output snapshot file " ++ p ++ ": " ++ e)
  | None =>
      do c <- os_Create p;
      match c with
      | inr e =>
          t_Fatalf ("failed to open newly created snapshot file: " ++ p ++ ": " ++ e)
      | inl file =>
          do res <- copyToFileAndBuffer file actual;
          match snd res with
          | Some e =>
              t_Fatalf ("failed to write to newly created snapshot file: "
                          ++ p ++ ": " ++ e)
          | None =>
              do serr <- file_Seek0 file;
              match serr with
              | Some e =>
                  t_Fatalf ("failed to seek to beginning for snapshot file: " ++ e)
              | None => mret (FileReader file, MemReader (fst res) None)
              end
          end
      end
  end.

(* ===================================================================== *)
(** ** File names: filepath.Ext and strings.TrimSuffix *)
(* ===================================================================== *)

(** The loop of [filepath.Ext], which walks the path from its end: [r] is
    what is left of the reversed path and [acc] the characters passed. *)
Fixpoint ext_scan (acc r : list ascii) : list ascii :=
  match r with
  | [] => []
  | c :: r' =>
      if Ascii.eqb c "/" then []
      else if Ascii.eqb c "." then c :: acc
      else ext_scan (c :: acc) r'
  end.

(** [filepath.Ext]: the suffix that begins at the last dot of the last
    element of the path, empty if that element has no dot. *)
Definition filepath_Ext (path : string) : string :=
  string_of_list_ascii (ext_scan [] (rev (list_ascii_of_string path))).

(** [strings.HasSuffix]. *)
Definition strings_HasSuffix (s suffix : string) : bool :=
  let l := list_ascii_of_string s in
  let x := list_ascii_of_string suffix in
  (length x <=? length l)%nat && bool_decide (drop (length l - length x) l = x).

(** [strings.TrimSuffix]: [s] without the suffix if it ends with it. *)
Definition strings_TrimSuffix (s suffix : string) : string :=
  let l := list_ascii_of_string s in
  let x := list_ascii_of_string suffix in
  if strings_HasSuffix s suffix
  then string_of_list_ascii (take (length l - length x) l)
  else s.

(** [WithSnapshotFilename] of the file that defines [GetTestInput]: the
    extension is set first and the name is cut with the new extension. *)
Definition WithSnapshotFilename (filename : string) : GetTestInputOption :=
  fun o =>
    let ext := filepath_Ext filename in
    mkGetTestInputOptions (strings_TrimSuffix filename ext) ext (CreateSnapshot o).

(* ===================================================================== *)
(** ** Options as interfaces *)
(* ===================================================================== *)

(** The options file declares [GetTestInputOption] and [MatchOption] as
    interfaces with one method each, and [SnapshotOption] as a value that
    has both. *)
Module Options.

Class GetTestInputOption (O : Type) : Type :=
  ApplyInputOption : O -> GetTestInputOptions -> GetTestInputOptions.

Class MatchOption (O : Type) : Type :=
  ApplyMatchOption : O -> MatchOptions -> MatchOptions.

Class SnapshotOption (O : Type) : Type := {
  snapshot_input :: GetTestInputOption O;
  snapshot_match :: MatchOption O
}.

Record withSnapshotName : Type := mkWithSnapshotName { wsn_name : string }.

#[global] Instance withSnapshotName_input : GetTestInputOption withSnapshotName :=
  fun wo o =>
    mkGetTestInputOptions (wsn_name wo) (in_FileExtension o) (CreateSnapshot o).

#[global] Instance withSnapshotName_match : MatchOption withSnapshotName :=
  fun wo o =>
    mkMatchOptions (wsn_name wo) (out_FileExtension o) (opt_Comparator o)
      (opt_ReaderNormaliser o).

#[global] Instance withSnapshotName_option : SnapshotOption withSnapshotName := {}.

Definition WithSnapshotName (name : string) : withSnapshotName :=
  mkWithSnapshotName name.

Record withSnapshotFileExtension : Type :=
  mkWithSnapshotFileExtension { wse_ext : string }.

#[global] Instance withSnapshotFileExtension_input
  : GetTestInputOption withSnapshotFileExtension :=
  fun wo o =>
    mkGetTestInputOptions (in_SnapshotName o) (wse_ext wo) (CreateSnapshot o).

#[global] Instance withSnapshotFileExtension_match
  : MatchOption withSnapshotFileExtension :=
  fun wo o =>
    mkMatchOptions (out_SnapshotName o) (wse_ext wo) (opt_Comparator o)
      (opt_ReaderNormaliser o).

#[global] Instance withSnapshotFileExtension_option
  : SnapshotOption withSnapshotFileExtension := {}.

Definition WithSnapshotFileExtension (name : string) : withSnapshotFileExtension :=
  mkWithSnapshotFileExtension name.

Record withSnapshotFilename : Type :=
  mkWithSnapshotFilename { wsf_filename : string }.

#[global] Instance withSnapshotFilename_input
  : GetTestInputOption withSnapshotFilename :=
  fun wo o =>
    let ext := filepath_Ext (wsf_filename wo) in
    mkGetTestInputOptions (strings_TrimSuffix (wsf_filename wo) ext) ext
      (CreateSnapshot o).

#[global] Instance withSnapshotFilename_match
  : MatchOption withSnapshotFilename :=
  fun wo o =>
    let ext := filepath_Ext (wsf_filename wo) in
    mkMatchOptions (strings_TrimSuffix (wsf_filename wo) ext) ext
      (opt_Comparator o) (opt_ReaderNormaliser o).

#[global] Instance withSnapshotFilename_option
  : SnapshotOption withSnapshotFilename := {}.

Definition WithSnapshotFilename (name : string) : withSnapshotFilename :=
  mkWithSnapshotFilename name.

(** [GetTestInputOptionFunc] and [MatchOptionFunc]: a function on the
    options is an option, applied by calling it. *)
Definition GetTestInputOptionFunc : Type :=
  GetTestInputOptions -> GetTestInputOptions.

#[global] Instance GetTestInputOptionFunc_input
  : GetTestInputOption GetTestInputOptionFunc :=
  fun giof o => giof o.

Definition MatchOptionFunc : Type := MatchOptions -> MatchOptions.

#[global] Instance MatchOptionFunc_match : MatchOption MatchOptionFunc :=
  fun mof o => mof o.

Definition WithCreateSnapshot (r : SnapshotCreator) : GetTestInputOptionFunc :=
  fun o => mkGetTestInputOptions (in_SnapshotName o) (in_FileExtension o) (Some r).

Definition WithCreateSnapshotFromReader (r : Reader) : GetTestInputOptionFunc :=
  WithCreateSnapshot (mret (r, None)).

Definition WithComparator (cmp : Comparator) : MatchOptionFunc :=
  fun o => mkMatchOptions (out_SnapshotName o) (out_FileExtension o) cmp
             (opt_ReaderNormaliser o).

Definition WithReaderNormaliser (rn : ReaderNormaliser) : MatchOptionFunc :=
  fun o => mkMatchOptions (out_SnapshotName o) (out_FileExtension o)
             (opt_Comparator o) rn.

(** A shared option leaves the input and the output options in step: what
    it does not name is kept, and options that agreed on name and
    extension agree afterwards. *)
Definition keepsInStep {O : Type} `{SnapshotOption O} (s : O) : Prop :=
  forall (io : GetTestInputOptions) (mo : MatchOptions),
    CreateSnapshot (ApplyInputOption s io) = CreateSnapshot io
    /\ opt_Comparator (ApplyMatchOption s mo) = opt_Comparator mo
    /\ opt_ReaderNormaliser (ApplyMatchOption s mo) = opt_ReaderNormaliser mo
    /\ (in_SnapshotName io = out_SnapshotName mo ->
        in_FileExtension io = out_FileExtension mo ->
        in_SnapshotName (ApplyInputOption s io)
          = out_SnapshotName (ApplyMatchOption s mo)
        /\ in_FileExtension (ApplyInputOption s io)
           = out_FileExtension (ApplyMatchOption s mo)).

End Options.

(* ===================================================================== *)
(** ** The example package: ScanSum *)
(* ===================================================================== *)

(** Go's [int] on the platforms the package is built for: 64 bits, two's
    complement, sums wrap around. *)
Definition wrap64 (z : Z) : Z := ((z + 2 ^ 63) mod 2 ^ 64 - 2 ^ 63)%Z.

(** The loop of [ScanSum] from index [i] with the running [sum]: the
    index, not the element, is added. *)
Fixpoint scanFrom (i sum : Z) (input : list Z) : list Z :=
  match input with
  | [] => []
  | _ :: rest =>
      let sum' := wrap64 (sum + i) in
      sum' :: scanFrom (i + 1) sum' rest
  end.

(** [ScanSum]. *)
Definition ScanSum (input : list Z) : list Z := scanFrom 0 0 input.

(** The sum of the numbers from 0 to [k]. *)
Definition triangular (k : Z) : Z := (k * (k + 1) / 2)%Z.

(* ===================================================================== *)
(** ** The package *)
(* ===================================================================== *)

Section Snapshot.

(** [strconv.IsPrint] above Latin-1 is a table lookup. *)
Variable isPrint_table : N -> bool.

(** The report go-cmp prints for two values that are not equal. *)
Variable cmp_report : CmpValue -> CmpValue -> string.

(** "Diff returns an empty string if and only if Equal returns true." *)
Hypothesis cmp_report_nonempty :
  forall x y, cmp_Equal x y = false -> cmp_report x y <> "".

(** [json.Marshal] on values that are neither functions nor channels, and
    [json.Indent] applied to a prefix, an indent and a text. *)
Variable json_marshal_data : GoValue -> string + string.
Variable json_Indent : string -> string -> string -> string.

(** The indentation [AsJSON] sets on its encoder: no prefix, two spaces. *)
Definition json_indent : string -> string := json_Indent "" "  ".

(** "Trailing space characters at the end of src are preserved and copied
    to dst": the newline the encoder adds after a value stays where it is. *)
Hypothesis json_indent_newline :
  forall v b, json_marshal_data v = inl b ->
    json_indent (b ++ NL) = json_indent b ++ NL.

(** The indented form of a value ends with the last character of the
    value, which is no newline. *)
Hypothesis json_indent_end :
  forall v b body, json_marshal_data v = inl b -> json_indent b <> body ++ NL.

(** *** strconv.Quote and the [%q] verb *)

Definition strconv_IsPrint (r : N) : bool :=
  if (r <=? 0xFF)%N then
    if between 0x20 0x7E r then true
    else if (0xA1 <=? r)%N then negb (r =? 0xAD)%N
    else false
  else isPrint_table r.

(** One step of the loop of [strconv.Quote]: the text written for the rune
    at the head of [s], and the width of that rune. *)
Definition quote_step (s : string) : string * nat :=
  let '(r, width) := utf8_DecodeRuneInString s in
  if (width =? 1)%nat && (r =? RuneError)%N then
    match s with
    | String c _ => (BACKSLASH ++ "x" ++ hex_digits 2 (N_of_ascii c), 1)
    | EmptyString => ("", 1)
    end
  else if (r =? 34)%N || (r =? 92)%N then (BACKSLASH ++ byte_string [r], width)
  else if strconv_IsPrint r then (utf8_EncodeRune r, width)
  else (escape_rune r, width).

(** The loop itself; [skip] counts the bytes of a rune still to pass. *)
Fixpoint quote_loop (skip : nat) (s : string) : string :=
  match s with
  | EmptyString => ""
  | String _ rest =>
      match skip with
      | S k => quote_loop k rest
      | O => let '(out, width) := quote_step s in out ++ quote_loop (width - 1) rest
      end
  end.

Definition strconv_Quote (s : string) : string :=
  DQUOTE ++ quote_loop 0 s ++ DQUOTE.

(** *** Comparators *)

(** [StringComparator]: exact equality of the two texts. *)
Definition StringComparator : Comparator := fun expected actual =>
  do e <- readToString expected;
  match snd e with
  | Some err => mret (false, "failed to read expected data from reader: " ++ err)
  | None =>
      do a <- readToString actual;
      match snd a with
      | Some err => mret (false, "failed to read actual data from reader: " ++ err)
      | None =>
          let ok := String.eqb (fst e) (fst a) in
          if ok then mret (true, "")
          else mret (false, "expected " ++ strconv_Quote (fst e)
                              ++ ", got " ++ strconv_Quote (fst a))
      end
  end.

(** [cmp.Diff]: empty for equal values, the report otherwise. *)
Definition cmp_Diff (x y : CmpValue) : string :=
  if cmp_Equal x y then "" else cmp_report x y.

(** [StringDiffComparator]: both sides are read into strings. *)
Definition StringDiffComparator : Comparator := fun expected actual =>
  do a <- readToString actual;
  match snd a with
  | Some err => mret (false, "failed to read actual io.Reader: " ++ err)
  | None =>
      do e <- readToString expected;
      match snd e with
      | Some err => mret (false, "failed to read expected io.Reader: " ++ err)
      | None =>
          let msg := cmp_Diff (CmpString (fst e)) (CmpString (fst a)) in
          mret (String.eqb msg "", msg)
      end
  end.

(** [CmpDiffComparator]: [actual] is read into a string with
    [readToString], [expected] into a byte slice with [io.ReadAll]. *)
Definition CmpDiffComparator : Comparator := fun expected actual =>
  do a <- readToString actual;
  match snd a with
  | Some err => mret (false, "failed to read actual io.Reader: " ++ err)
  | None =>
      do e <- readAll expected;
      match snd e with
      | Some err => mret (false, "failed to read expected io.Reader: " ++ err)
      | None =>
          let msg := cmp_Diff (CmpBytes (fst e)) (CmpString (fst a)) in
          mret (String.eqb msg "", msg)
      end
  end.

(** *** GetTestInput *)

Definition defaultGetTestInputOptions : GetTestInputOptions :=
  mkGetTestInputOptions "input" ".txt" None.

Definition GetTestInput (t : T) (optFns : list GetTestInputOption) : M Reader :=
  let opts := applyOptions optFns defaultGetTestInputOptions in
  let p := filepath_Clean
             (getSnapshotFilePath t (in_SnapshotName opts) (in_FileExtension opts)) in
  do o <- os_Open p;
  run t_Log ("input snapshot filename: " ++ p);
  match o with
  | OpenOk file =>
      run t_Log "using existing snapshot";
      mret (NopCloser (FileReader file))
  | OpenNotExist =>
      match CreateSnapshot opts with
      | None =>
          t_Fatalf ("snapshot file " ++ strconv_Quote p
                      ++ " does not exist and no CreateSnapshot option was provided")
      | Some create =>
          do r <- create;
          match snd r with
          | Some err => t_Fatalf ("snapshot creator failed with an error " ++ err)
          | None => createInputSnapshot p (fst r)
          end
      end
  | OpenErr _ => t_Fatalf "error opening input snapshot file"
  end.

(** *** Match *)

Definition defaultMatchOptions : MatchOptions :=
  mkMatchOptions "output" ".txt" StringComparator NopReaderNormaliser.

Definition Match (t : T) (actual : Reader) (optFns : list MatchOption)
  : M (bool * string) :=
  let opts := applyOptions optFns defaultMatchOptions in
  let p := filepath_Clean
             (getSnapshotFilePath t (out_SnapshotName opts) (out_FileExtension opts)) in
  run t_Log ("output snapshot filename: " ++ p);
  do o <- os_Open p;
  do ea <- match o with
           | OpenOk file =>
               run t_Log "using existing snapshot";
               mret (FileReader file, actual)
           | OpenNotExist => createOutputSnapshot p actual
           | OpenErr _ => mret (NilReader, actual)
           end;
  do expected' <- opt_ReaderNormaliser opts (fst ea);
  do actual' <- opt_ReaderNormaliser opts (snd ea);
  opt_Comparator opts expected' actual'.

(** *** AsJSON *)

(** [json.Marshal]: functions and channels cannot be encoded. *)
Definition json_Marshal (v : GoValue) : string + string :=
  match v with
  | VFunc ty _ _ => inr ("json: unsupported type: " ++ ty)
  | VChan ty => inr ("json: unsupported type: " ++ ty)
  | _ => json_marshal_data v
  end.

(** A [json.Encoder], as far as [AsJSON] configures it. *)
Record Encoder : Type := mkEncoder { indentPrefix : string; indentValue : string }.

(** [json.NewEncoder]: no indentation. *)
Definition json_NewEncoder : Encoder := mkEncoder "" "".

(** [SetIndent]. *)
Definition Encoder_SetIndent (prefix indent : string) (enc : Encoder) : Encoder :=
  mkEncoder prefix indent.

(** [Encode]: marshal, end the value with a newline, indent if a prefix or
    an indent is set, write. Nothing is written on error. *)
Definition Encoder_Encode (enc : Encoder) (v : GoValue)
  : list ascii * option string :=
  match json_Marshal v with
  | inr e => ([], Some e)
  | inl b =>
      let text := b ++ NL in
      (list_ascii_of_string
         (if String.eqb (indentPrefix enc) "" && String.eqb (indentValue enc) ""
          then text
          else json_Indent (indentPrefix enc) (indentValue enc) text),
       None)
  end.

(** [reflect.Value.Call] with no arguments. *)
Definition reflect_Call0 (numIn : nat) (results : list GoValue)
  : Outcome (list GoValue) :=
  match numIn with
  | O => Ret results
  | S _ => Panic "reflect: Call with too few input arguments"
  end.

Definition arity_error : string :=
  "callable arguments to AsJSON must return a single value".

(** The tail of [AsJSON]: encode [i] into a fresh buffer, with an encoder
    set to indent by two spaces. *)
Definition encodeJSON (i : GoValue) : Reader * option string :=
  let enc := Encoder_SetIndent "" "  " json_NewEncoder in
  let '(buf, err) := Encoder_Encode enc i in
  (MemReader buf None,
   match err with
   | Some e => Some ("failed to encode snapshot as JSON: " ++ e)
   | None => None
   end).

(** [AsJSON]: the pair returned is [(out, err)]. *)
Definition AsJSON (i : GoValue) : Outcome (Reader * option string) :=
  match i with
  | VFunc _ numIn results =>
      match reflect_Call0 numIn results with
      | Ret [r] => Ret (encodeJSON r)
      | Ret _ => Ret (NilReader, Some arity_error)
      | Fatal m => Fatal m
      | Panic m => Panic m
      end
  | _ => Ret (encodeJSON i)
  end.

(** [WithCreateSnapshotAsJSON]. *)
Definition WithCreateSnapshotAsJSON (i : GoValue) : GetTestInputOption :=
  fun o =>
    mkGetTestInputOptions (in_SnapshotName o) ".json"
      (Some (fun w => (AsJSON i, w))).


(* ===================================================================== *)
(** ** Vocabulary of the statements *)
(* ===================================================================== *)

(** The world after [os.Create] made [p], [data] was written through the
    new handle and the handle is at offset [off]. *)
Definition created (p : string) (data : list ascii) (off : nat) (w : World) : World :=
  set_fds (fds w ++ [mkOpenFile p off]) (set_files (<[p := data]> (files w)) w).

(** What [StringComparator] reports for texts [e] and [a] once both were
    read. *)
Definition textVerdict (e a : list ascii) : bool * string :=
  if decide (e = a) then (true, "")
  else (false, "expected " ++ strconv_Quote (string_of_list_ascii e)
                 ++ ", got " ++ strconv_Quote (string_of_list_ascii a)).

(** The path [Match] resolves from its options. *)
Definition outputPath (t : T) (optFns : list MatchOption) : string :=
  let opts := applyOptions optFns defaultMatchOptions in
  filepath_Clean
    (getSnapshotFilePath t (out_SnapshotName opts) (out_FileExtension opts)).

(** The path [GetTestInput] resolves from its options. *)
Definition inputPath (t : T) (optFns : list GetTestInputOption) : string :=
  let opts := applyOptions optFns defaultGetTestInputOptions in
  filepath_Clean
    (getSnapshotFilePath t (in_SnapshotName opts) (in_FileExtension opts)).

(** The comparison that ends [Match]. *)
Definition compareWith (opts : MatchOptions) (expected actual : Reader)
  : M (bool * string) :=
  do expected' <- opt_ReaderNormaliser opts expected;
  do actual' <- opt_ReaderNormaliser opts actual;
  opt_Comparator opts expected' actual'.

(** [readToStringUnchecked] of the package's tests. *)
Definition readToStringUnchecked (r : Reader) : M string :=
  do s <- readToString r;
  mret (fst s).

(** The body of [TestInputChanged] for two creators: load with the first
    and read the stream, then load with the second and read the stream. *)
Definition loadTwice (t : T) (optFns : list GetTestInputOption)
    (g1 g2 : SnapshotCreator) : M (string * string) :=
  do firstInput <- GetTestInput t (optFns ++ [WithCreateSnapshot g1]);
  do s1 <- readToStringUnchecked firstInput;
  do secondInput <- GetTestInput t (optFns ++ [WithCreateSnapshot g2]);
  do s2 <- readToStringUnchecked secondInput;
  mret (s1, s2).

(** The world in which [GetTestInput] returns an existing artifact. *)
Definition opened (p : string) (w : World) : World :=
  set_logs ((logs w ++ ["input snapshot filename: " ++ p])
              ++ ["using existing snapshot"])
    (set_fds (fds w ++ [mkOpenFile p 0]) w).

(** The world after the creator ran and the artifact was made, empty. *)
Definition inputCreated (p : string) (wg : World) : World :=
  created p [] 0
    (set_dirs ({[filepath_Dir p]} ∪ dirs wg)
       (set_logs (logs wg ++ ["creating new input snapshot"]) wg)).

(** The same world once [d] went through the tee. *)
Definition inputWritten (p : string) (d : list ascii) (wg : World) : World :=
  created p d (length d)
    (set_dirs ({[filepath_Dir p]} ∪ dirs wg)
       (set_logs (logs wg ++ ["creating new input snapshot"]) wg)).

(** A comparator that reads [r1] first and [r2] second turns a failed read
    into a failing result: the message is [m1] or [m2], which names the
    side, followed by the error. *)
Definition failsSoftly (cmp : Reader -> Reader -> M (bool * string))
    (m1 m2 : string) : Prop :=
  forall (r1 r2 : Reader) (w : World),
    (forall (d : list ascii) (err : string) (w1 : World),
        readAll r1 w = (Ret (d, Some err), w1) ->
        cmp r1 r2 w = (Ret (false, m1 ++ err), w1))
    /\ (forall (d1 d2 : list ascii) (err : string) (w1 w2 : World),
        readAll r1 w = (Ret (d1, None), w1) ->
        readAll r2 w1 = (Ret (d2, Some err), w2) ->
        cmp r1 r2 w = (Ret (false, m2 ++ err), w2)).

(** The result of a comparator on readers with no nil inside is a pair
    whose message is empty exactly when it passes. *)
Definition keepsResultInvariant (cmp : Comparator) : Prop :=
  forall (e a : Reader) (w : World),
    nonnil e = true -> nonnil a = true ->
    exists (ok : bool) (msg : string) (w' : World),
      cmp e a w = (Ret (ok, msg), w') /\ (msg = "" <-> ok = true).

(** The value [AsJSON] encodes: the argument, or what the argument returns
    when it is a callable of no argument with one result. *)
Definition serialises (i v : GoValue) : Prop :=
  (is_Func i = false /\ v = i) \/ (exists ty : string, i = VFunc ty 0 [v]).

(** The body of [TestRoundTrip]: the input that was loaded is matched. *)
Definition loadAndMatch (t : T) (inFns : list GetTestInputOption)
    (outFns : list MatchOption) : M (bool * string) :=
  do input <- GetTestInput t inFns;
  Match t input outFns.

(** The world in which [Match] compares against an existing artifact. *)
Definition outputOpened (p : string) (w : World) : World :=
  set_logs ((logs w ++ ["output snapshot filename: " ++ p])
              ++ ["using existing snapshot"])
    (set_fds (fds w ++ [mkOpenFile p 0]) w).

(** The world in which [Match] has made the artifact with the bytes
    [data] and left its handle at offset [off]. *)
Definition outputCreated (p : string) (data : list ascii) (off : nat)
    (w : World) : World :=
  created p data off
    (set_dirs ({[filepath_Dir p]} ∪ dirs w)
       (set_logs ((logs w ++ ["output snapshot filename: " ++ p])
                    ++ ["creating new output snapshot"]) w)).

(** Characters that [strconv.Quote] writes as they are whatever the
    table: printable ASCII other than the quote and the backslash. *)
Definition quotesAsIs (c : ascii) : bool :=
  let n := N_of_ascii c in
  between 0x20 0x7E n && negb (n =? 34)%N && negb (n =? 92)%N.

Definition plainText (s : string) : bool :=
  forallb quotesAsIs (list_ascii_of_string s).

(** The path of an input whose last option is [WithCreateSnapshotAsJSON]:
    the name the earlier options chose, the extension [.json]. *)
Definition jsonPath (t : T) (optFns : list GetTestInputOption) : string :=
  filepath_Clean
    (getSnapshotFilePath t
       (in_SnapshotName (applyOptions optFns defaultGetTestInputOptions)) ".json").

(** Two loads in a row, the first stream left unread, then a read of the
    second stream. *)
Definition loadTwiceUnread (t : T) (optFns : list GetTestInputOption)
    (g1 g2 : SnapshotCreator) : M string :=
  do firstInput <- GetTestInput t (optFns ++ [WithCreateSnapshot g1]);
  do secondInput <- GetTestInput t (optFns ++ [WithCreateSnapshot g2]);
  readToStringUnchecked secondInput.

(** Two loads in a row; the second stream is read first, the first stream
    after it. *)
Definition loadTwiceReadLate (t : T) (optFns : list GetTestInputOption)
    (g1 g2 : SnapshotCreator) : M (string * string) :=
  do firstInput <- GetTestInput t (optFns ++ [WithCreateSnapshot g1]);
  do secondInput <- GetTestInput t (optFns ++ [WithCreateSnapshot g2]);
  do s2 <- readToStringUnchecked secondInput;
  do s1 <- readToStringUnchecked firstInput;
  mret (s1, s2).

(* ===================================================================== *)
(** ** Data of the worked examples *)
(* ===================================================================== *)

(** A table that prints no rune above Latin-1 as it is. *)
Definition plainTable : N -> bool := fun _ => false.

Definition cmpText (x : CmpValue) : string :=
  match x with
  | CmpString s => "string(" ++ s ++ ")"
  | CmpBytes b => "[]uint8(" ++ string_of_list_ascii b ++ ")"
  end.

(** A report of two lines, one per side. *)
Definition lineReport (x y : CmpValue) : string :=
  "- " ++ cmpText x ++ NL ++ "+ " ++ cmpText y ++ NL.

(** *** An encoder for a fragment of Go's values

    Enough of [encoding/json] to run the package's own test of [AsJSON]:
    nil, booleans, integers, strings and field names of plain characters,
    slices and structs of those. Every other value is refused, so that no
    text is produced that the Go encoder would not produce. *)

Definition QUOTE : ascii := ascii_of_N 34.
Definition RSOLIDUS : ascii := ascii_of_N 92.
Definition LF : ascii := ascii_of_N 10.

Definition digitChar (k : N) : ascii :=
  match N.to_nat k with
  | 0 => "0" | 1 => "1" | 2 => "2" | 3 => "3" | 4 => "4"
  | 5 => "5" | 6 => "6" | 7 => "7" | 8 => "8" | _ => "9"
  end%char.

Fixpoint decimal (fuel : nat) (n : N) : string :=
  match fuel with
  | O => ""
  | S fuel' =>
      (if (n <? 10)%N then "" else decimal fuel' (n / 10)%N)
        ++ String (digitChar (n mod 10)%N) ""
  end.

Definition formatInt (z : Z) : string :=
  (if (z <? 0)%Z then "-" else "")
    ++ decimal (S (N.to_nat (N.log2 (Z.abs_N z)))) (Z.abs_N z).

(** Characters the encoder writes as they are inside a string. *)
Definition plainChar (c : ascii) : bool :=
  let n := N_of_ascii c in
  between 0x20 0x7E n
  && negb (n =? 34)%N && negb (n =? 92)%N
  && negb (n =? 60)%N && negb (n =? 62)%N && negb (n =? 38)%N.

Definition plainString (s : string) : bool :=
  forallb plainChar (list_ascii_of_string s).

Definition outsideFragment : string := "json: value outside the example encoder".

Definition quoted (s : string) : string + string :=
  if plainString s then inl (String QUOTE s ++ String QUOTE "")
  else inr outsideFragment.

(** The compact encoding. *)
Fixpoint fragmentMarshal (v : GoValue) : string + string :=
  match v with
  | VNil => inl "null"
  | VBool true => inl "true"
  | VBool false => inl "false"
  | VInt n => inl (formatInt n)
  | VString s => quoted s
  | VSlice xs =>
      match
        (fix elems (l : list GoValue) : string + string :=
           match l with
           | [] => inl ""
           | [x] => fragmentMarshal x
           | x :: rest =>
               match fragmentMarshal x, elems rest with
               | inl a, inl b => inl (a ++ "," ++ b)
               | inr e, _ => inr e
               | _, inr e => inr e
               end
           end) xs
      with
      | inl body => inl ("[" ++ body ++ "]")
      | inr e => inr e
      end
  | VStruct fs =>
      match
        (fix members (l : list (string * GoValue)) : string + string :=
           match l with
           | [] => inl ""
           | (k, x) :: rest =>
               match quoted k, fragmentMarshal x, members rest with
               | inl q, inl a, inl b =>
                   inl (q ++ ":" ++ a
                          ++ match rest with [] => "" | _ => "," ++ b end)
               | inr e, _, _ => inr e
               | _, inr e, _ => inr e
               | _, _, inr e => inr e
               end
           end) fs
      with
      | inl body => inl ("{" ++ body ++ "}")
      | inr e => inr e
      end
  | VChan _ => inr outsideFragment
  | VFunc _ _ _ => inr outsideFragment
  end.

(** The state of [json.Indent] while it walks over a compact encoding. *)
Record Indenter : Type := mkIndenter {
  ind_out : string;       (* written so far *)
  ind_depth : nat;        (* nesting depth *)
  ind_need : bool;        (* an opening bracket waits for its line break *)
  ind_inString : bool;    (* inside a string literal *)
  ind_escaped : bool      (* after a backslash inside a string *)
}.

(** A line break followed by the prefix and [depth] indents. *)
Definition newline (prefix indent : string) (depth : nat) : string :=
  NL ++ prefix ++ String.concat "" (repeat indent depth).

Definition isCloser (c : ascii) : bool := Ascii.eqb c "}" || Ascii.eqb c "]".

Definition isSpace (c : ascii) : bool :=
  Ascii.eqb c " " || Ascii.eqb c LF
  || Ascii.eqb c (ascii_of_N 9) || Ascii.eqb c (ascii_of_N 13).

Definition indentStep (prefix indent : string) (st : Indenter) (c : ascii)
  : Indenter :=
  if ind_inString st then
    mkIndenter (ind_out st ++ String c "") (ind_depth st) (ind_need st)
      (ind_escaped st || negb (Ascii.eqb c QUOTE))
      (negb (ind_escaped st) && Ascii.eqb c RSOLIDUS)
  else if isSpace c then st
  else
    let '(out, depth, need) :=
      if ind_need st && negb (isCloser c)
      then (ind_out st ++ newline prefix indent (S (ind_depth st)), S (ind_depth st), false)
      else (ind_out st, ind_depth st, ind_need st) in
    if Ascii.eqb c QUOTE then
      mkIndenter (out ++ String c "") depth need true false
    else if Ascii.eqb c "{" || Ascii.eqb c "[" then
      mkIndenter (out ++ String c "") depth true false false
    else if Ascii.eqb c "," then
      mkIndenter ((out ++ String c "") ++ newline prefix indent depth) depth need false false
    else if Ascii.eqb c ":" then
      mkIndenter ((out ++ String c "") ++ " ") depth need false false
    else if isCloser c then
      if need then mkIndenter (out ++ String c "") depth false false false
      else mkIndenter ((out ++ newline prefix indent (pred depth)) ++ String c "")
             (pred depth) false false false
    else mkIndenter (out ++ String c "") depth need false false.

(** The walk over a text with no space after its value. *)
Definition indentWalk (prefix indent s : string) : string :=
  ind_out (fold_left (indentStep prefix indent) (list_ascii_of_string s)
             (mkIndenter "" 0 false false false)).

(** [s] without its final newline, if it has one. *)
Fixpoint stripNewline (s : string) : option string :=
  match s with
  | EmptyString => None
  | String c EmptyString => if Ascii.eqb c LF then Some "" else None
  | String c rest => option_map (String c) (stripNewline rest)
  end.

(** [json.Indent]: a newline after the value is copied. *)
Definition fragmentIndent (prefix indent s : string) : string :=
  match stripNewline s with
  | Some body => indentWalk prefix indent body ++ NL
  | None => indentWalk prefix indent s
  end.

Fixpoint lastChar (s : string) : option ascii :=
  match s with
  | EmptyString => None
  | String c EmptyString => Some c
  | String _ rest => lastChar rest
  end.

(** Characters after which [indentStep] writes nothing more. *)
Definition closing (c : ascii) : bool :=
  negb (isSpace c) && negb (Ascii.eqb c ",") && negb (Ascii.eqb c ":").

(** [mkTestStruct()] of the package's tests. *)
Definition mkTestStruct : GoValue :=
  VStruct [("Member1", VString "hello"); ("Member2", VString "world")].

(** The text [TestAsJSON] expects. *)
Definition testAsJSON_expected : string :=
  "{" ++ NL
  ++ "  " ++ String QUOTE "Member1" ++ String QUOTE ": "
  ++ String QUOTE "hello" ++ String QUOTE "," ++ NL
  ++ "  " ++ String QUOTE "Member2" ++ String QUOTE ": "
  ++ String QUOTE "world" ++ String QUOTE "" ++ NL
  ++ "}" ++ NL.

Definition bytes (s : string) : list ascii := list_ascii_of_string s.

(** No file, nothing refused, nothing open, nothing logged. *)
Definition emptyWorld : World := mkWorld ∅ ∅ ∅ ∅ ∅ [] [].

Definition testOutputChanged : T :=
  mkT "TestOutputChanged" "/src/snapshot/snapshot_test.go".

Definition testInputChanged : T :=
  mkT "TestInputChanged" "/src/snapshot/snapshot_test.go".

Definition outputTxt : string :=
  "/src/snapshot/__snapshots__/TestOutputChanged/output.txt".

Definition inputTxt : string :=
  "/src/snapshot/__snapshots__/TestInputChanged/input.txt".

(** The world of [TestOutputChanged] after its first [Match]: the output
    snapshot holds [hello]. *)
Definition helloWorld : World :=
  mkWorld {[outputTxt := bytes "hello"]} ∅ ∅ ∅ ∅ [] [].

(** The world in which the input snapshot of [TestInputChanged] holds
    [hello]. *)
Definition helloInputWorld : World :=
  mkWorld {[inputTxt := bytes "hello"]} ∅ ∅ ∅ ∅ [] [].

(** A comparator that rejects whatever it is given. *)
Definition rejectAll : Comparator := fun _ _ => mret (false, "never equal").

(** A creator that returns a reader of [s]. *)
Definition readerOf (s : string) : SnapshotCreator :=
  mret (MemReader (bytes s) None, None).

(** A stream that delivers [s] and then fails. *)
Definition brokenAfter (s : string) : Reader :=
  MemReader (bytes s) (Some "unexpected EOF").

(** The output snapshot of [TestOutputChanged] holds [hello] but cannot be
    opened. *)
Definition lockedWorld : World :=
  mkWorld {[outputTxt := bytes "hello"]} ∅ {[outputTxt]} ∅ ∅ [] [].

(** The same for the input snapshot of [TestInputChanged]. *)
Definition lockedInputWorld : World :=
  mkWorld {[inputTxt := bytes "hello"]} ∅ {[inputTxt]} ∅ ∅ [] [].

(** No snapshot yet, and the output snapshot cannot be created. *)
Definition readOnlyWorld : World :=
  mkWorld ∅ ∅ ∅ ∅ {[outputTxt]} [] [].

(** No snapshot yet, and the input snapshot cannot be created. *)
Definition readOnlyInputWorld : World :=
  mkWorld ∅ ∅ ∅ ∅ {[inputTxt]} [] [].

(** A creator that fails. *)
Definition failingCreator : SnapshotCreator :=
  mret (NilReader, Some "source unavailable").

Definition testRoundTrip : T :=
  mkT "TestRoundTrip" "/src/snapshot/snapshot_test.go".

Definition roundTripInputTxt : string :=
  "/src/snapshot/__snapshots__/TestRoundTrip/input.txt".

Definition roundTripOutputTxt : string :=
  "/src/snapshot/__snapshots__/TestRoundTrip/output.txt".

(** Both snapshots of [TestRoundTrip] hold [hello]. *)
Definition roundTripWorld : World :=
  mkWorld {[roundTripInputTxt := bytes "hello";
            roundTripOutputTxt := bytes "hello"]} ∅ ∅ ∅ ∅ [] [].

(* ===================================================================== *)
(** ** Running the monad *)
(* ===================================================================== *)

Lemma mbind_Ret {A B} (c : M A) (k : A -> M B) (w w' : World) (a : A) :
  c w = (Ret a, w') -> mbind c k w = k a w'.
Proof. intros H. unfold mbind. now rewrite H. Qed.

Lemma mbind_mret {A B} (a : A) (k : A -> M B) (w : World) :
  mbind (mret a) k w = k a w.
Proof. reflexivity. Qed.

(** Run the first computation of a bind whose result [H] states. *)
Ltac exec H := rewrite (mbind_Ret _ _ _ _ _ H); cbn [fst snd].

Lemma os_Open_absent (p : string) (w : World) :
  p ∉ open_denied w -> files w !! p = None ->
  os_Open p w = (Ret OpenNotExist, w).
Proof.
  intros Hd Hf. unfold os_Open.
  rewrite (decide_False (P := p ∈ open_denied w)) by assumption.
  now rewrite Hf.
Qed.

Lemma os_Open_present (p : string) (c : list ascii) (w : World) :
  p ∉ open_denied w -> files w !! p = Some c ->
  os_Open p w = (Ret (OpenOk (length (fds w))),
                 set_fds (fds w ++ [mkOpenFile p 0]) w).
Proof.
  intros Hd Hf. unfold os_Open.
  rewrite (decide_False (P := p ∈ open_denied w)) by assumption.
  now rewrite Hf.
Qed.

Lemma os_MkdirAll_ok (d : string) (w : World) :
  d ∉ mkdir_denied w ->
  os_MkdirAll d w = (Ret None, set_dirs ({[d]} ∪ dirs w) w).
Proof.
  intros Hd. unfold os_MkdirAll.
  now rewrite (decide_False (P := d ∈ mkdir_denied w)) by assumption.
Qed.

Lemma os_Create_ok (p : string) (w : World) :
  p ∉ create_denied w ->
  os_Create p w =
    (Ret (inl (length (fds w))),
     set_fds (fds w ++ [mkOpenFile p 0]) (set_files (<[p := []]> (files w)) w)).
Proof.
  intros Hd. unfold os_Create.
  now rewrite (decide_False (P := p ∈ create_denied w)) by assumption.
Qed.

Lemma write_at_start (data : list ascii) : write_at 0 data [] = data.
Proof. unfold write_at. simpl. rewrite drop_nil. apply app_nil_r. Qed.

Lemma lookup_fresh_fd (l : list OpenFile) (f : OpenFile) :
  (l ++ [f])%list !! length l = Some f.
Proof. rewrite lookup_app_r by lia. now rewrite Nat.sub_diag. Qed.

Lemma insert_fresh_fd (l : list OpenFile) (f g : OpenFile) :
  <[length l := g]> (l ++ [f])%list = (l ++ [g])%list.
Proof.
  rewrite insert_app_r_alt by lia. now rewrite Nat.sub_diag.
Qed.

Lemma files_created p data off w : files (created p data off w) !! p = Some data.
Proof. simpl. apply lookup_insert_eq. Qed.

Lemma fds_created p data off w :
  fds (created p data off w) !! length (fds w) = Some (mkOpenFile p off).
Proof. simpl. apply lookup_fresh_fd. Qed.

Lemma file_Write_created p data w :
  file_Write (length (fds w)) data (created p [] 0 w)
  = (Ret None, created p data (length data) w).
Proof.
  unfold file_Write. rewrite fds_created. simpl.
  rewrite lookup_insert_eq. simpl. rewrite write_at_start.
  unfold created, set_fds, set_files. simpl.
  rewrite insert_fresh_fd. now rewrite insert_insert_eq.
Qed.

Lemma file_Seek0_created p data off w :
  file_Seek0 (length (fds w)) (created p data off w)
  = (Ret None, created p data 0 w).
Proof.
  unfold file_Seek0. rewrite fds_created. simpl.
  unfold created, set_fds, set_files. simpl. now rewrite insert_fresh_fd.
Qed.

Lemma file_readAll_created p data w :
  file_readAll (length (fds w)) (created p data 0 w)
  = (Ret (data, None), created p data (length data) w).
Proof.
  unfold file_readAll. rewrite fds_created. simpl.
  rewrite lookup_insert_eq. simpl.
  unfold created, set_fds, set_files. simpl. now rewrite insert_fresh_fd.
Qed.

(** The first run of [Match] on a stream that reads to its end. *)
Lemma createOutputSnapshot_ok (p : string) (A : list ascii) (w : World) :
  filepath_Dir p ∉ mkdir_denied w -> p ∉ create_denied w ->
  createOutputSnapshot p (MemReader A None) w
  = (Ret (FileReader (length (fds w)), MemReader A None),
     created p A 0
       (set_dirs ({[filepath_Dir p]} ∪ dirs w)
          (set_logs (logs w ++ ["creating new output snapshot"]) w))).
Proof.
  intros Hm Hc. unfold createOutputSnapshot.
  set (w1 := set_logs (logs w ++ ["creating new output snapshot"]) w).
  rewrite (mbind_Ret _ _ w w1 tt) by reflexivity.
  exec (os_MkdirAll_ok _ w1 Hm).
  set (w2 := set_dirs _ w1).
  exec (os_Create_ok p w2 Hc).
  change (set_fds _ (set_files _ w2)) with (created p [] 0 w2).
  assert (Hcopy : copyToFileAndBuffer (length (fds w2)) (MemReader A None)
                    (created p [] 0 w2)
                  = (Ret (A, None), created p A (length A) w2)).
  { unfold copyToFileAndBuffer. simpl readAll. rewrite mbind_mret. cbn [fst snd].
    exec (file_Write_created p A w2). reflexivity. }
  exec Hcopy.
  exec (file_Seek0_created p A (length A) w2).
  reflexivity.
Qed.

Lemma file_readAll_at (fd : nat) (f : OpenFile) (c : list ascii) (w : World) :
  fds w !! fd = Some f -> files w !! of_path f = Some c ->
  file_readAll fd w
  = (Ret (drop (of_off f) c, None),
     set_fds (<[fd := mkOpenFile (of_path f) (of_off f `max` length c)]> (fds w)) w).
Proof. intros Hfd Hc. unfold file_readAll. now rewrite Hfd, Hc. Qed.

Lemma readToString_Ret (r : Reader) (d : list ascii) (e : option string)
    (w w' : World) :
  readAll r w = (Ret (d, e), w') ->
  readToString r w = (Ret (string_of_list_ascii d, e), w').
Proof. intros H. unfold readToString. now exec H. Qed.

Lemma string_of_list_ascii_inj (a b : list ascii) :
  string_of_list_ascii a = string_of_list_ascii b -> a = b.
Proof.
  intros H. rewrite <- (list_ascii_of_string_of_list_ascii a).
  rewrite <- (list_ascii_of_string_of_list_ascii b). now rewrite H.
Qed.

Lemma StringComparator_reads (e a : Reader) (de da : list ascii)
    (w w1 w2 : World) :
  readAll e w = (Ret (de, None), w1) ->
  readAll a w1 = (Ret (da, None), w2) ->
  StringComparator e a w = (Ret (textVerdict de da), w2).
Proof.
  intros He Ha. unfold StringComparator.
  exec (readToString_Ret _ _ _ _ _ He).
  exec (readToString_Ret _ _ _ _ _ Ha).
  unfold textVerdict. destruct (decide (de = da)) as [->|Hne].
  - now rewrite String.eqb_refl.
  - destruct (String.eqb_spec (string_of_list_ascii de) (string_of_list_ascii da))
      as [Heq|_]; [|reflexivity].
    now apply string_of_list_ascii_inj in Heq.
Qed.

Lemma StringComparator_expected_fails (e a : Reader) (de : list ascii)
    (err : string) (w w1 : World) :
  readAll e w = (Ret (de, Some err), w1) ->
  StringComparator e a w
  = (Ret (false, "failed to read expected data from reader: " ++ err), w1).
Proof.
  intros He. unfold StringComparator.
  now exec (readToString_Ret _ _ _ _ _ He).
Qed.

Lemma StringComparator_actual_fails (e a : Reader) (de da : list ascii)
    (err : string) (w w1 w2 : World) :
  readAll e w = (Ret (de, None), w1) ->
  readAll a w1 = (Ret (da, Some err), w2) ->
  StringComparator e a w
  = (Ret (false, "failed to read actual data from reader: " ++ err), w2).
Proof.
  intros He Ha. unfold StringComparator.
  exec (readToString_Ret _ _ _ _ _ He).
  now exec (readToString_Ret _ _ _ _ _ Ha).
Qed.

(** C1 (as amended). When no artifact exists at the resolved path, the
    directory and the file can be made and the actual stream [A] reads to
    its end, [Match] leaves an artifact with the bytes of [A], rewound, and
    returns what the configured comparator says about the normalised
    artifact and the normalised in-memory copy of [A]; with the default
    comparator and normaliser that is [(true, "")]. *)
Theorem Match_first_run (t : T) (A : list ascii) (optFns : list MatchOption)
    (w : World) :
  let opts := applyOptions optFns defaultMatchOptions in
  let p := outputPath t optFns in
  p ∉ open_denied w -> files w !! p = None ->
  filepath_Dir p ∉ mkdir_denied w -> p ∉ create_denied w ->
  (exists (w1 : World) (file : nat),
      files w1 !! p = Some A /\ fds w1 !! file = Some (mkOpenFile p 0) /\
      Match t (MemReader A None) optFns w
      = compareWith opts (FileReader file) (MemReader A None) w1)
  /\ (opt_Comparator opts = StringComparator ->
      opt_ReaderNormaliser opts = NopReaderNormaliser ->
      exists w' : World,
        Match t (MemReader A None) optFns w = (Ret (true, ""), w')
        /\ files w' !! p = Some A).
Proof.
  intros opts p Hopen Habs Hmk Hcr.
  set (w0 := set_logs (logs w ++ ["output snapshot filename: " ++ p]) w).
  set (w2 := set_dirs ({[filepath_Dir p]} ∪ dirs w0)
               (set_logs (logs w0 ++ ["creating new output snapshot"]) w0)).
  assert (Hrun : Match t (MemReader A None) optFns w
                 = compareWith opts (FileReader (length (fds w))) (MemReader A None)
                     (created p A 0 w2)).
  { unfold Match. fold opts. fold (outputPath t optFns). fold p.
    rewrite (mbind_Ret _ _ w w0 tt) by reflexivity.
    exec (os_Open_absent p w0 Hopen Habs).
    exec (createOutputSnapshot_ok p A w0 Hmk Hcr).
    reflexivity. }
  split.
  - exists (created p A 0 w2), (length (fds w)). split; [|split].
    + apply files_created.
    + apply (fds_created p A 0 w2).
    + exact Hrun.
  - intros Hcmp Hnorm. exists (created p A (length A) w2). split.
    + rewrite Hrun. unfold compareWith. rewrite Hcmp, Hnorm.
      unfold NopReaderNormaliser. rewrite !mbind_mret.
      rewrite (StringComparator_reads _ _ A A _ (created p A (length A) w2)
                 (created p A (length A) w2)).
      * unfold textVerdict. now rewrite decide_True.
      * apply (file_readAll_created p A w2).
      * reflexivity.
    + apply files_created.
Qed.

(** C2. With an artifact holding [E], the default comparator and the
    default normaliser, [Match] on a stream that delivers [A] passes with
    an empty message exactly when [E] and [A] are the same bytes, and
    otherwise fails with [expected "E", got "A"], both texts quoted. The
    artifact is not changed. *)
Theorem Match_existing_default (t : T) (E A : list ascii)
    (optFns : list MatchOption) (w : World) :
  let opts := applyOptions optFns defaultMatchOptions in
  let p := outputPath t optFns in
  p ∉ open_denied w -> files w !! p = Some E ->
  opt_Comparator opts = StringComparator ->
  opt_ReaderNormaliser opts = NopReaderNormaliser ->
  exists (ok : bool) (msg : string) (w' : World),
    Match t (MemReader A None) optFns w = (Ret (ok, msg), w')
    /\ (ok = true <-> E = A)
    /\ msg = (if ok then ""
              else "expected " ++ strconv_Quote (string_of_list_ascii E)
                     ++ ", got " ++ strconv_Quote (string_of_list_ascii A))
    /\ files w' = files w.
Proof.
  intros opts p Hopen Hfile Hcmp Hnorm.
  set (w0 := set_logs (logs w ++ ["output snapshot filename: " ++ p]) w).
  set (w1 := set_fds (fds w0 ++ [mkOpenFile p 0]) w0).
  set (w2 := set_logs (logs w1 ++ ["using existing snapshot"]) w1).
  set (file := length (fds w)).
  set (w3 := set_fds (<[file := mkOpenFile p (0 `max` length E)]> (fds w2)) w2).
  assert (Hread : readAll (FileReader file) w2 = (Ret (E, None), w3)).
  { simpl readAll.
    rewrite (file_readAll_at file (mkOpenFile p 0) E w2); [reflexivity| |exact Hfile].
    apply lookup_fresh_fd. }
  assert (Hrun : Match t (MemReader A None) optFns w = (Ret (textVerdict E A), w3)).
  { unfold Match. fold opts. fold (outputPath t optFns). fold p.
    rewrite (mbind_Ret _ _ w w0 tt) by reflexivity.
    exec (os_Open_present p E w0 Hopen Hfile).
    fold w1.
    rewrite (mbind_Ret _ _ w1 w2 (FileReader file, MemReader A None)) by reflexivity.
    cbn [fst snd]. rewrite Hcmp, Hnorm. unfold NopReaderNormaliser.
    rewrite !mbind_mret.
    now apply (StringComparator_reads _ _ E A w2 w3 w3). }
  unfold textVerdict in Hrun.
  destruct (decide (E = A)) as [Heq|Hne].
  - exists true, "", w3. repeat split; auto.
  - eexists false, _, w3. split; [exact Hrun|]. split; [|split; reflexivity].
    split; [discriminate|intros; contradiction].
Qed.

Lemma inputPath_WithCreateSnapshot (t : T) (optFns : list GetTestInputOption)
    (g : SnapshotCreator) :
  inputPath t (optFns ++ [WithCreateSnapshot g]) = inputPath t optFns.
Proof. unfold inputPath, applyOptions. now rewrite fold_left_app. Qed.

Lemma CreateSnapshot_WithCreateSnapshot (optFns : list GetTestInputOption)
    (g : SnapshotCreator) :
  CreateSnapshot (applyOptions (optFns ++ [WithCreateSnapshot g])
                    defaultGetTestInputOptions) = Some g.
Proof. unfold applyOptions. now rewrite fold_left_app. Qed.

Lemma GetTestInput_existing (t : T) (optFns : list GetTestInputOption)
    (c : list ascii) (w : World) :
  let p := inputPath t optFns in
  p ∉ open_denied w -> files w !! p = Some c ->
  GetTestInput t optFns w
  = (Ret (NopCloser (FileReader (length (fds w)))), opened p w).
Proof.
  intros p Hopen Hfile. unfold GetTestInput. fold (inputPath t optFns). fold p.
  exec (os_Open_present p c w Hopen Hfile).
  reflexivity.
Qed.

Lemma readAll_opened (p : string) (c : list ascii) (w : World) :
  files w !! p = Some c ->
  exists w' : World,
    readAll (NopCloser (FileReader (length (fds w)))) (opened p w)
    = (Ret (c, None), w')
    /\ files w' = files w.
Proof.
  intros Hfile. eexists. split.
  - simpl readAll.
    rewrite (file_readAll_at _ (mkOpenFile p 0) c); [reflexivity| |exact Hfile].
    apply lookup_fresh_fd.
  - reflexivity.
Qed.

Lemma createInputSnapshot_ok (p : string) (src : Reader) (w : World) :
  filepath_Dir p ∉ mkdir_denied w -> p ∉ create_denied w ->
  createInputSnapshot p src w
  = (Ret (TeeReader src (length (fds w))),
     created p [] 0
       (set_dirs ({[filepath_Dir p]} ∪ dirs w)
          (set_logs (logs w ++ ["creating new input snapshot"]) w))).
Proof.
  intros Hm Hc. unfold createInputSnapshot.
  set (w1 := set_logs (logs w ++ ["creating new input snapshot"]) w).
  rewrite (mbind_Ret _ _ w w1 tt) by reflexivity.
  exec (os_MkdirAll_ok _ w1 Hm).
  set (w2 := set_dirs _ w1).
  now exec (os_Create_ok p w2 Hc).
Qed.

Lemma GetTestInput_creates (t : T) (optFns : list GetTestInputOption)
    (g : SnapshotCreator) (src : Reader) (w wg : World) :
  let opts := applyOptions optFns defaultGetTestInputOptions in
  let p := inputPath t optFns in
  p ∉ open_denied w -> files w !! p = None ->
  CreateSnapshot opts = Some g ->
  g (set_logs (logs w ++ ["input snapshot filename: " ++ p]) w)
    = (Ret (src, None), wg) ->
  filepath_Dir p ∉ mkdir_denied wg -> p ∉ create_denied wg ->
  GetTestInput t optFns w
  = (Ret (TeeReader src (length (fds wg))), inputCreated p wg).
Proof.
  intros opts p Hopen Habs Hg Hrun Hmk Hcr.
  unfold GetTestInput. fold opts. fold (inputPath t optFns). fold p.
  exec (os_Open_absent p w Hopen Habs).
  rewrite (mbind_Ret _ _ w _ tt) by reflexivity.
  rewrite Hg. exec Hrun.
  now apply createInputSnapshot_ok.
Qed.

Lemma readAll_tee_created (p : string) (d : list ascii) (e : option string)
    (wg : World) :
  readAll (TeeReader (MemReader d e) (length (fds wg))) (inputCreated p wg)
  = (Ret (d, e), inputWritten p d wg).
Proof.
  simpl readAll. rewrite mbind_mret. cbn [fst snd]. unfold inputCreated.
  set (w2 := set_dirs _ _).
  change (length (fds wg)) with (length (fds w2)).
  now exec (file_Write_created p d w2).
Qed.

Lemma readToStringUnchecked_Ret (r : Reader) (d : list ascii)
    (e : option string) (w w' : World) :
  readAll r w = (Ret (d, e), w') ->
  readToStringUnchecked r w = (Ret (string_of_list_ascii d), w').
Proof.
  intros H. unfold readToStringUnchecked.
  now exec (readToString_Ret _ _ _ _ _ H).
Qed.

(** Loading and reading an artifact that exists, whatever creator is
    supplied. *)
Lemma load_existing (t : T) (optFns : list GetTestInputOption)
    (c : list ascii) (w : World) :
  let p := inputPath t optFns in
  p ∉ open_denied w -> files w !! p = Some c ->
  exists w' : World,
    files w' = files w /\ open_denied w' = open_denied w /\
    forall (g : SnapshotCreator) (B : Type) (k : string -> M B),
      (do r <- GetTestInput t (optFns ++ [WithCreateSnapshot g]);
       do s <- readToStringUnchecked r;
       k s) w
      = k (string_of_list_ascii c) w'.
Proof.
  intros p Hopen Hfile.
  destruct (readAll_opened p c w Hfile) as [w' [Hread Hfiles]].
  exists w'. split; [exact Hfiles|]. split.
  - simpl in Hread. rewrite (file_readAll_at _ (mkOpenFile p 0) c) in Hread;
      [|apply lookup_fresh_fd|exact Hfile].
    now inversion Hread.
  - intros g B k.
    assert (Hp : inputPath t (optFns ++ [WithCreateSnapshot g]) = p)
      by apply inputPath_WithCreateSnapshot.
    rewrite (mbind_Ret _ _ w (opened p w) (NopCloser (FileReader (length (fds w))))).
    + now exec (readToStringUnchecked_Ret _ _ _ _ _ Hread).
    + rewrite <- Hp. apply (GetTestInput_existing t _ c); rewrite Hp; assumption.
Qed.

(** C3 (as amended). If the artifact exists, [GetTestInput] returns a
    reader of its bytes, and the outcome and the world are the same for
    every creator that could be supplied, so none is run. Hence loading
    twice with creators [g1] and [g2], each returned stream read to its end
    before the next step, gives the same text both times, the same for
    every [g2]: the stream of [g1] when the artifact was missing at first,
    the artifact's bytes when it was there from the start. *)
Theorem GetTestInput_existing_ignores_creator (t : T)
    (optFns : list GetTestInputOption) (w : World) :
  let p := inputPath t optFns in
  (forall c : list ascii,
      p ∉ open_denied w -> files w !! p = Some c ->
      exists (r : Reader) (w1 w2 : World),
        GetTestInput t optFns w = (Ret r, w1)
        /\ (forall g : SnapshotCreator,
              GetTestInput t (optFns ++ [WithCreateSnapshot g]) w = (Ret r, w1))
        /\ readAll r w1 = (Ret (c, None), w2)
        /\ files w2 = files w)
  /\ (forall (c : list ascii),
      p ∉ open_denied w -> files w !! p = Some c ->
      exists w' : World, forall g1 g2 : SnapshotCreator,
        loadTwice t optFns g1 g2 w
        = (Ret (string_of_list_ascii c, string_of_list_ascii c), w'))
  /\ (forall (g1 : SnapshotCreator) (d : list ascii) (e : option string)
        (wg : World),
      p ∉ open_denied w -> files w !! p = None ->
      g1 (set_logs (logs w ++ ["input snapshot filename: " ++ p]) w)
        = (Ret (MemReader d e, None), wg) ->
      filepath_Dir p ∉ mkdir_denied wg -> p ∉ create_denied wg ->
      p ∉ open_denied wg ->
      exists w' : World, forall g2 : SnapshotCreator,
        loadTwice t optFns g1 g2 w
        = (Ret (string_of_list_ascii d, string_of_list_ascii d), w')).
Proof.
  intros p. split; [|split].
  - intros c Hopen Hfile.
    destruct (readAll_opened p c w Hfile) as [w2 [Hread Hfiles]].
    exists (NopCloser (FileReader (length (fds w)))), (opened p w), w2.
    split; [now apply (GetTestInput_existing t optFns c)|].
    split; [|now split].
    intros g.
    assert (Hp : inputPath t (optFns ++ [WithCreateSnapshot g]) = p)
      by apply inputPath_WithCreateSnapshot.
    rewrite <- Hp. apply (GetTestInput_existing t _ c); rewrite Hp; assumption.
  - intros c Hopen Hfile.
    destruct (load_existing t optFns c w Hopen Hfile) as [w1 [Hf1 [Hd1 Hk1]]].
    assert (Hopen1 : p ∉ open_denied w1) by now rewrite Hd1.
    assert (Hfile1 : files w1 !! p = Some c) by now rewrite Hf1.
    destruct (load_existing t optFns c w1 Hopen1 Hfile1) as [w2 [_ [_ Hk2]]].
    exists w2. intros g1 g2. unfold loadTwice.
    rewrite Hk1. now rewrite Hk2.
  - intros g1 d e wg Hopen Habs Hg Hmk Hcr Hopen'.
    assert (Hopen1 : p ∉ open_denied (inputWritten p d wg)) by exact Hopen'.
    assert (Hfile1 : files (inputWritten p d wg) !! p = Some d)
      by apply files_created.
    destruct (load_existing t optFns d _ Hopen1 Hfile1) as [w2 [_ [_ Hk2]]].
    exists w2. intros g2. unfold loadTwice.
    assert (Hp : inputPath t (optFns ++ [WithCreateSnapshot g1]) = p)
      by apply inputPath_WithCreateSnapshot.
    rewrite (mbind_Ret _ _ w (inputCreated p wg)
               (TeeReader (MemReader d e) (length (fds wg)))).
    + rewrite (mbind_Ret _ _ _ _ _
                 (readToStringUnchecked_Ret _ _ _ _ _ (readAll_tee_created p d e wg))).
      now rewrite Hk2.
    + rewrite <- Hp.
      apply (GetTestInput_creates t _ g1); rewrite ?Hp; try assumption.
      apply CreateSnapshot_WithCreateSnapshot.
Qed.

(** C4. With no artifact and no creator among the options, [GetTestInput]
    ends in [t.Fatalf]: no reader is returned and storage is untouched. *)
Theorem GetTestInput_missing_is_fatal (t : T)
    (optFns : list GetTestInputOption) (w : World) :
  let opts := applyOptions optFns defaultGetTestInputOptions in
  let p := inputPath t optFns in
  files w !! p = None -> CreateSnapshot opts = None ->
  exists (msg : string) (w' : World),
    GetTestInput t optFns w = (Fatal msg, w')
    /\ files w' = files w
    /\ (p ∉ open_denied w ->
        msg = "snapshot file " ++ strconv_Quote p
                ++ " does not exist and no CreateSnapshot option was provided").
Proof.
  intros opts p Habs Hnone.
  unfold GetTestInput. fold opts. fold (inputPath t optFns). fold p.
  destruct (decide (p ∈ open_denied w)) as [Hin|Hout].
  - assert (Hop : os_Open p w
                  = (Ret (OpenErr ("open " ++ p ++ ": permission denied")), w)).
    { unfold os_Open. now rewrite (decide_True (P := p ∈ open_denied w)). }
    exec Hop.
    rewrite (mbind_Ret _ _ w _ tt) by reflexivity.
    eexists _, _. split; [reflexivity|]. split; [reflexivity|].
    intros Hc. contradiction.
  - exec (os_Open_absent p w Hout Habs).
    rewrite (mbind_Ret _ _ w _ tt) by reflexivity.
    rewrite Hnone.
    eexists _, _. split; [reflexivity|]. split; reflexivity.
Qed.

(** C5 (as amended). With no artifact and a creator that returns a stream
    delivering [d], [GetTestInput] runs the creator once, makes the
    artifact empty and returns a tee of the stream: the artifact holds
    nothing when the call returns and holds [d] once the caller has read
    the returned stream to its end. *)
Theorem GetTestInput_persists_on_read (t : T)
    (optFns : list GetTestInputOption) (g : SnapshotCreator)
    (d : list ascii) (e : option string) (w wg : World) :
  let opts := applyOptions optFns defaultGetTestInputOptions in
  let p := inputPath t optFns in
  p ∉ open_denied w -> files w !! p = None ->
  CreateSnapshot opts = Some g ->
  g (set_logs (logs w ++ ["input snapshot filename: " ++ p]) w)
    = (Ret (MemReader d e, None), wg) ->
  filepath_Dir p ∉ mkdir_denied wg -> p ∉ create_denied wg ->
  exists (out : Reader) (w2 : World),
    GetTestInput t optFns w = (Ret out, inputCreated p wg)
    /\ files (inputCreated p wg) !! p = Some []
    /\ readAll out (inputCreated p wg) = (Ret (d, e), w2)
    /\ files w2 !! p = Some d.
Proof.
  intros opts p Hopen Habs Hg Hrun Hmk Hcr.
  exists (TeeReader (MemReader d e) (length (fds wg))), (inputWritten p d wg).
  split; [now apply (GetTestInput_creates t optFns g)|].
  split; [apply files_created|].
  split; [apply readAll_tee_created|apply files_created].
Qed.

(** A reader with no nil inside is read to its end without a panic. *)
Lemma readAll_nonnil (r : Reader) :
  nonnil r = true ->
  forall w : World, exists (d : list ascii) (e : option string) (w' : World),
    readAll r w = (Ret (d, e), w').
Proof.
  induction r as [|d e|fd|src IH fd|r IH]; intros Hnn w; simpl in Hnn.
  - discriminate.
  - now exists d, e, w.
  - simpl. unfold file_readAll. destruct (fds w !! fd); eauto.
  - destruct (IH Hnn w) as [d [e [w1 Hsrc]]]. simpl.
    exec Hsrc.
    unfold mbind, file_Write. destruct (fds w1 !! fd); simpl; eauto.
  - simpl. now apply IH.
Qed.

Lemma StringDiffComparator_reads (e a : Reader) (de da : list ascii)
    (w w1 w2 : World) :
  readAll a w = (Ret (da, None), w1) ->
  readAll e w1 = (Ret (de, None), w2) ->
  let msg := cmp_Diff (CmpString (string_of_list_ascii de))
               (CmpString (string_of_list_ascii da)) in
  StringDiffComparator e a w = (Ret (String.eqb msg "", msg), w2).
Proof.
  intros Ha He. unfold StringDiffComparator.
  exec (readToString_Ret _ _ _ _ _ Ha).
  now exec (readToString_Ret _ _ _ _ _ He).
Qed.

Lemma CmpDiffComparator_reads (e a : Reader) (de da : list ascii)
    (w w1 w2 : World) :
  readAll a w = (Ret (da, None), w1) ->
  readAll e w1 = (Ret (de, None), w2) ->
  let msg := cmp_Diff (CmpBytes de) (CmpString (string_of_list_ascii da)) in
  CmpDiffComparator e a w = (Ret (String.eqb msg "", msg), w2).
Proof.
  intros Ha He. unfold CmpDiffComparator.
  exec (readToString_Ret _ _ _ _ _ Ha).
  now exec He.
Qed.

Lemma StringDiffComparator_actual_fails (e a : Reader) (da : list ascii)
    (err : string) (w w1 : World) :
  readAll a w = (Ret (da, Some err), w1) ->
  StringDiffComparator e a w
  = (Ret (false, "failed to read actual io.Reader: " ++ err), w1).
Proof.
  intros Ha. unfold StringDiffComparator.
  now exec (readToString_Ret _ _ _ _ _ Ha).
Qed.

Lemma StringDiffComparator_expected_fails (e a : Reader) (de da : list ascii)
    (err : string) (w w1 w2 : World) :
  readAll a w = (Ret (da, None), w1) ->
  readAll e w1 = (Ret (de, Some err), w2) ->
  StringDiffComparator e a w
  = (Ret (false, "failed to read expected io.Reader: " ++ err), w2).
Proof.
  intros Ha He. unfold StringDiffComparator.
  exec (readToString_Ret _ _ _ _ _ Ha).
  now exec (readToString_Ret _ _ _ _ _ He).
Qed.

Lemma CmpDiffComparator_actual_fails (e a : Reader) (da : list ascii)
    (err : string) (w w1 : World) :
  readAll a w = (Ret (da, Some err), w1) ->
  CmpDiffComparator e a w
  = (Ret (false, "failed to read actual io.Reader: " ++ err), w1).
Proof.
  intros Ha. unfold CmpDiffComparator.
  now exec (readToString_Ret _ _ _ _ _ Ha).
Qed.

Lemma CmpDiffComparator_expected_fails (e a : Reader) (de da : list ascii)
    (err : string) (w w1 w2 : World) :
  readAll a w = (Ret (da, None), w1) ->
  readAll e w1 = (Ret (de, Some err), w2) ->
  CmpDiffComparator e a w
  = (Ret (false, "failed to read expected io.Reader: " ++ err), w2).
Proof.
  intros Ha He. unfold CmpDiffComparator.
  exec (readToString_Ret _ _ _ _ _ Ha).
  now exec He.
Qed.

Lemma cmp_Diff_empty (x y : CmpValue) : cmp_Diff x y = "" <-> cmp_Equal x y = true.
Proof.
  unfold cmp_Diff. destruct (cmp_Equal x y) eqn:Heq.
  - split; reflexivity.
  - split; [|discriminate]. intros H. now apply cmp_report_nonempty in H.
Qed.

(** [StringDiffComparator] passes exactly on equal texts. *)
Lemma StringDiffComparator_contract (e a : Reader) (de da : list ascii)
    (w w1 w2 : World) :
  readAll a w = (Ret (da, None), w1) ->
  readAll e w1 = (Ret (de, None), w2) ->
  exists (ok : bool) (msg : string),
    StringDiffComparator e a w = (Ret (ok, msg), w2)
    /\ (ok = true <-> de = da) /\ (msg = "" <-> ok = true).
Proof.
  intros Ha He. eexists _, _.
  split; [apply (StringDiffComparator_reads _ _ de da _ w1); assumption|].
  cbv zeta. split.
  - rewrite String.eqb_eq, cmp_Diff_empty. simpl. rewrite String.eqb_eq.
    split; [apply string_of_list_ascii_inj|now intros ->].
  - now rewrite String.eqb_eq.
Qed.

(** C6. [CmpDiffComparator] hands go-cmp a byte slice for [expected] and a
    string for [actual]; values of different types are never equal, so once
    both streams were read it fails with a non-empty report, also when the
    two streams deliver the same bytes. *)
Theorem CmpDiffComparator_never_passes (e a : Reader) (de da : list ascii)
    (w w1 w2 : World) :
  readAll a w = (Ret (da, None), w1) ->
  readAll e w1 = (Ret (de, None), w2) ->
  exists msg : string,
    CmpDiffComparator e a w = (Ret (false, msg), w2) /\ msg <> "".
Proof.
  intros Ha He.
  exists (cmp_report (CmpBytes de) (CmpString (string_of_list_ascii da))).
  assert (Hne : cmp_report (CmpBytes de) (CmpString (string_of_list_ascii da)) <> "")
    by now apply cmp_report_nonempty.
  split; [|exact Hne].
  rewrite (CmpDiffComparator_reads _ _ de da _ w1 w2 Ha He).
  cbv zeta. unfold cmp_Diff. simpl cmp_Equal. cbv iota.
  apply String.eqb_neq in Hne. now rewrite Hne.
Qed.

(** C7. Each built-in comparator answers a failed read of either stream
    with [ok = false] and a message that names the side that failed and
    carries the error. [StringComparator] reads [expected] first, the two
    diff comparators read [actual] first. *)
Theorem comparators_report_read_failure :
  failsSoftly StringComparator
    "failed to read expected data from reader: "
    "failed to read actual data from reader: "
  /\ failsSoftly (fun actual expected => StringDiffComparator expected actual)
       "failed to read actual io.Reader: "
       "failed to read expected io.Reader: "
  /\ failsSoftly (fun actual expected => CmpDiffComparator expected actual)
       "failed to read actual io.Reader: "
       "failed to read expected io.Reader: ".
Proof.
  split; [|split]; intros r1 r2 w; split.
  - intros d err w1. apply StringComparator_expected_fails.
  - intros d1 d2 err w1 w2. apply StringComparator_actual_fails.
  - intros d err w1. apply StringDiffComparator_actual_fails.
  - intros d1 d2 err w1 w2 H1 H2.
    now apply (StringDiffComparator_expected_fails _ _ d2 d1 err w w1 w2).
  - intros d err w1. apply CmpDiffComparator_actual_fails.
  - intros d1 d2 err w1 w2 H1 H2.
    now apply (CmpDiffComparator_expected_fails _ _ d2 d1 err w w1 w2).
Qed.

Lemma textVerdict_invariant (e a : list ascii) :
  snd (textVerdict e a) = "" <-> fst (textVerdict e a) = true.
Proof.
  unfold textVerdict. destruct (decide (e = a)); simpl; split; auto; discriminate.
Qed.

(** C8. For the three built-in comparators the message is empty if and
    only if the outcome is a pass; a failed read gives a failing result
    with a message. *)
Theorem comparison_result_invariant :
  keepsResultInvariant StringComparator
  /\ keepsResultInvariant StringDiffComparator
  /\ keepsResultInvariant CmpDiffComparator.
Proof.
  split; [|split]; intros e a w He Ha.
  - destruct (readAll_nonnil e He w) as [de [ee [w1 Hre]]].
    destruct ee as [err|].
    + eexists _, _, _. split; [eapply (StringComparator_expected_fails _ _ de); eassumption|].
      split; discriminate.
    + destruct (readAll_nonnil a Ha w1) as [da [ea [w2 Hra]]].
      destruct ea as [err|].
      * eexists _, _, _.
        split; [eapply (StringComparator_actual_fails _ _ de da err w w1); eassumption|].
        split; discriminate.
      * exists (fst (textVerdict de da)), (snd (textVerdict de da)), w2.
        split; [|apply textVerdict_invariant].
        rewrite <- surjective_pairing.
        eapply (StringComparator_reads _ _ de da w w1); eassumption.
  - destruct (readAll_nonnil a Ha w) as [da [ea [w1 Hra]]].
    destruct ea as [err|].
    + eexists _, _, _. split; [eapply (StringDiffComparator_actual_fails _ _ da); eassumption|].
      split; discriminate.
    + destruct (readAll_nonnil e He w1) as [de [ee [w2 Hre]]].
      destruct ee as [err|].
      * eexists _, _, _.
        split; [eapply (StringDiffComparator_expected_fails _ _ de da err w w1); eassumption|].
        split; discriminate.
      * eexists _, _, _.
        split; [eapply (StringDiffComparator_reads _ _ de da w w1); eassumption|].
        now rewrite String.eqb_eq.
  - destruct (readAll_nonnil a Ha w) as [da [ea [w1 Hra]]].
    destruct ea as [err|].
    + eexists _, _, _. split; [eapply (CmpDiffComparator_actual_fails _ _ da); eassumption|].
      split; discriminate.
    + destruct (readAll_nonnil e He w1) as [de [ee [w2 Hre]]].
      destruct ee as [err|].
      * eexists _, _, _.
        split; [eapply (CmpDiffComparator_expected_fails _ _ de da err w w1); eassumption|].
        split; discriminate.
      * eexists _, _, _.
        split; [eapply (CmpDiffComparator_reads _ _ de da w w1); eassumption|].
        now rewrite String.eqb_eq.
Qed.

Lemma list_ascii_of_string_app (s1 s2 : string) :
  list_ascii_of_string (s1 ++ s2)
  = (list_ascii_of_string s1 ++ list_ascii_of_string s2)%list.
Proof. induction s1 as [|c s1 IH]; simpl; [reflexivity|now rewrite IH]. Qed.

Lemma json_Marshal_data (v : GoValue) (b : string) :
  json_Marshal v = inl b -> json_marshal_data v = inl b.
Proof. destruct v; simpl; intros H; try exact H; discriminate. Qed.

Lemma encodeJSON_ok (v : GoValue) (b : string) :
  json_Marshal v = inl b ->
  encodeJSON v
  = (MemReader (list_ascii_of_string (json_indent b ++ NL)) None, None).
Proof.
  intros H. unfold encodeJSON, Encoder_Encode. rewrite H.
  change (json_Indent _ _ (b ++ NL)) with (json_indent (b ++ NL)). cbn [andb].
  change (String.eqb _ "" && String.eqb _ "") with false. cbv iota.
  now rewrite (json_indent_newline v b (json_Marshal_data v b H)).
Qed.

Lemma encodeJSON_error (v : GoValue) (e : string) :
  json_Marshal v = inr e ->
  encodeJSON v
  = (MemReader [] None, Some ("failed to encode snapshot as JSON: " ++ e)).
Proof. intros H. unfold encodeJSON, Encoder_Encode. now rewrite H. Qed.

Lemma encodeJSON_success (v : GoValue) (out : Reader) :
  encodeJSON v = (out, None) -> exists b : string, json_Marshal v = inl b.
Proof.
  unfold encodeJSON, Encoder_Encode.
  destruct (json_Marshal v) as [b|e]; [now exists b|discriminate].
Qed.

(** C9 (as amended). A callable that takes no argument and returns exactly
    one value is serialised as that value: the encoding of the value when
    it has one, an encoding error otherwise. A callable that returns no
    value or several is refused with the arity error and no reader. *)
Theorem AsJSON_callable (ty : string) (results : list GoValue) :
  (forall v : GoValue, results = [v] ->
      AsJSON (VFunc ty 0 results) = Ret (encodeJSON v)
      /\ (forall b : string, json_Marshal v = inl b ->
            AsJSON (VFunc ty 0 results)
            = Ret (MemReader (list_ascii_of_string (json_indent b ++ NL)) None,
                   None))
      /\ (forall e : string, json_Marshal v = inr e ->
            AsJSON (VFunc ty 0 results)
            = Ret (MemReader [] None,
                   Some ("failed to encode snapshot as JSON: " ++ e))))
  /\ (length results <> 1 ->
      AsJSON (VFunc ty 0 results) = Ret (NilReader, Some arity_error)).
Proof.
  split.
  - intros v ->. split; [reflexivity|]. split.
    + intros b Hb. simpl. now rewrite (encodeJSON_ok v b Hb).
    + intros e He. simpl. now rewrite (encodeJSON_error v e He).
  - intros Hlen. destruct results as [|r [|r' rest]]; simpl in *;
      [reflexivity|contradiction|reflexivity].
Qed.

(** Whenever [AsJSON] succeeds, the stream holds the indented encoding of
    the value followed by one newline, and the encoding itself does not end
    in a newline; so the bytes end with exactly one. *)
Lemma AsJSON_success_bytes (i : GoValue) (out : Reader) :
  AsJSON i = Ret (out, None) ->
  exists (v : GoValue) (b : string),
    serialises i v
    /\ json_Marshal v = inl b
    /\ out = MemReader (list_ascii_of_string (json_indent b)
                          ++ [ascii_of_N 10]) None
    /\ (forall body : string, json_indent b <> body ++ NL).
Proof.
  intros H.
  assert (Hgen : forall v, encodeJSON v = (out, None) ->
            exists b, json_Marshal v = inl b
              /\ out = MemReader (list_ascii_of_string (json_indent b)
                                    ++ [ascii_of_N 10]) None
              /\ (forall body : string, json_indent b <> body ++ NL)).
  { intros v Hv. destruct (encodeJSON_success v out Hv) as [b Hb].
    exists b. split; [exact Hb|]. split.
    - rewrite (encodeJSON_ok v b Hb) in Hv. inversion Hv.
      now rewrite list_ascii_of_string_app.
    - intros body. apply (json_indent_end v b body).
      now apply json_Marshal_data. }
  destruct (is_Func i) eqn:Hfunc.
  - destruct i as [| | | | | | |ty numIn results]; try discriminate.
    destruct numIn as [|n]; [|discriminate].
    destruct results as [|r [|r' rest]]; simpl in H; try discriminate.
    inversion H as [Henc]. destruct (Hgen _ Henc) as [b Hb].
    exists r, b. split; [right; now exists ty|exact Hb].
  - assert (Hdirect : AsJSON i = Ret (encodeJSON i))
      by (destruct i; try reflexivity; discriminate).
    rewrite Hdirect in H. inversion H as [Henc].
    destruct (Hgen _ Henc) as [b Hb].
    exists i, b. split; [left; now split|exact Hb].
Qed.

(* ===================================================================== *)
(** ** More on Match *)
(* ===================================================================== *)

Lemma Match_absent (t : T) (actual : Reader) (optFns : list MatchOption)
    (w : World) :
  let opts := applyOptions optFns defaultMatchOptions in
  let p := outputPath t optFns in
  p ∉ open_denied w -> files w !! p = None ->
  Match t actual optFns w
  = (do ea <- createOutputSnapshot p actual;
     compareWith opts (fst ea) (snd ea))
      (set_logs (logs w ++ ["output snapshot filename: " ++ p]) w).
Proof.
  intros opts p Hopen Habs.
  unfold Match. fold opts. fold (outputPath t optFns). fold p.
  set (w0 := set_logs (logs w ++ ["output snapshot filename: " ++ p]) w).
  rewrite (mbind_Ret _ _ w w0 tt) by reflexivity.
  exec (os_Open_absent p w0 Hopen Habs). reflexivity.
Qed.

Lemma Match_present (t : T) (actual : Reader) (E : list ascii)
    (optFns : list MatchOption) (w : World) :
  let opts := applyOptions optFns defaultMatchOptions in
  let p := outputPath t optFns in
  p ∉ open_denied w -> files w !! p = Some E ->
  Match t actual optFns w
  = compareWith opts (FileReader (length (fds w))) actual (outputOpened p w).
Proof.
  intros opts p Hopen Hfile.
  unfold Match. fold opts. fold (outputPath t optFns). fold p.
  set (w0 := set_logs (logs w ++ ["output snapshot filename: " ++ p]) w).
  rewrite (mbind_Ret _ _ w w0 tt) by reflexivity.
  exec (os_Open_present p E w0 Hopen Hfile).
  rewrite (mbind_Ret _ _ _ (outputOpened p w)
             (FileReader (length (fds w)), actual)) by reflexivity.
  reflexivity.
Qed.

Lemma readAll_outputOpened (p : string) (E : list ascii) (w : World) :
  files w !! p = Some E ->
  exists w' : World,
    readAll (FileReader (length (fds w))) (outputOpened p w) = (Ret (E, None), w')
    /\ files w' = files w.
Proof.
  intros Hfile. eexists. split.
  - simpl readAll.
    rewrite (file_readAll_at _ (mkOpenFile p 0) E); [reflexivity| |exact Hfile].
    apply lookup_fresh_fd.
  - reflexivity.
Qed.

Lemma Match_first_run_defaults (t : T) (A : list ascii)
    (optFns : list MatchOption) (w : World) :
  let opts := applyOptions optFns defaultMatchOptions in
  let p := outputPath t optFns in
  p ∉ open_denied w -> files w !! p = None ->
  filepath_Dir p ∉ mkdir_denied w -> p ∉ create_denied w ->
  opt_Comparator opts = StringComparator ->
  opt_ReaderNormaliser opts = NopReaderNormaliser ->
  Match t (MemReader A None) optFns w
  = (Ret (true, ""), outputCreated p A (length A) w).
Proof.
  intros opts p Hopen Habs Hmk Hcr Hcmp Hnorm.
  rewrite (Match_absent t _ optFns w Hopen Habs). fold opts p.
  set (w0 := set_logs (logs w ++ ["output snapshot filename: " ++ p]) w).
  exec (createOutputSnapshot_ok p A w0 Hmk Hcr).
  unfold compareWith. rewrite Hcmp, Hnorm. unfold NopReaderNormaliser.
  rewrite !mbind_mret.
  set (w2 := set_dirs _ _).
  rewrite (StringComparator_reads _ _ A A _ (created p A (length A) w2)
             (created p A (length A) w2)).
  - unfold textVerdict. now rewrite decide_True.
  - apply (file_readAll_created p A w2).
  - reflexivity.
Qed.

(** X1. Once a first run has recorded [A], the next run on a stream that
    delivers [B] is judged against [A] and leaves [A] in place: it passes
    if [B] is [A] and reports the change otherwise. Nothing updates the
    snapshot. *)
Theorem Match_after_first_run (t : T) (A B : list ascii)
    (optFns : list MatchOption) (w : World) :
  let opts := applyOptions optFns defaultMatchOptions in
  let p := outputPath t optFns in
  p ∉ open_denied w -> files w !! p = None ->
  filepath_Dir p ∉ mkdir_denied w -> p ∉ create_denied w ->
  opt_Comparator opts = StringComparator ->
  opt_ReaderNormaliser opts = NopReaderNormaliser ->
  exists w1 w2 : World,
    Match t (MemReader A None) optFns w = (Ret (true, ""), w1)
    /\ Match t (MemReader B None) optFns w1 = (Ret (textVerdict A B), w2)
    /\ files w2 !! p = Some A.
Proof.
  intros opts p Hopen Habs Hmk Hcr Hcmp Hnorm.
  set (w1 := outputCreated p A (length A) w).
  assert (Hfile1 : files w1 !! p = Some A) by apply files_created.
  assert (Hopen1 : p ∉ open_denied w1) by exact Hopen.
  destruct (readAll_outputOpened p A w1 Hfile1) as [w2 [Hread Hfiles]].
  exists w1, w2. split; [|split].
  - now apply Match_first_run_defaults.
  - rewrite (Match_present t _ A optFns w1 Hopen1 Hfile1). fold opts p.
    unfold compareWith. rewrite Hcmp, Hnorm. unfold NopReaderNormaliser.
    rewrite !mbind_mret.
    now apply (StringComparator_reads _ _ A B _ w2 w2).
  - now rewrite Hfiles.
Qed.

(** X2. With an artifact that can be opened, [Match] itself reads nothing and
    writes nothing to storage: it opens the artifact and hands a fresh
    handle on it, at offset 0, and the actual reader as given to the
    normaliser, expected first, and the two results to the comparator,
    whose answer it returns. *)
Theorem Match_existing_hands_over (t : T) (actual : Reader) (E : list ascii)
    (optFns : list MatchOption) (w : World) :
  let opts := applyOptions optFns defaultMatchOptions in
  let p := outputPath t optFns in
  p ∉ open_denied w -> files w !! p = Some E ->
  exists (w1 w2 : World) (file : nat),
    Match t actual optFns w
    = (do expected' <- opt_ReaderNormaliser opts (FileReader file);
       do actual' <- opt_ReaderNormaliser opts actual;
       opt_Comparator opts expected' actual') w1
    /\ files w1 = files w
    /\ dirs w1 = dirs w
    /\ fds w1 = (fds w ++ [mkOpenFile p 0])%list
    /\ file = length (fds w)
    /\ readAll (FileReader file) w1 = (Ret (E, None), w2).
Proof.
  intros opts p Hopen Hfile.
  destruct (readAll_outputOpened p E w Hfile) as [w2 [Hread _]].
  exists (outputOpened p w), w2, (length (fds w)).
  split; [exact (Match_present t actual E optFns w Hopen Hfile)|].
  repeat split; try reflexivity. exact Hread.
Qed.

(** X3. An artifact that is there but cannot be opened: [expected] stays nil,
    and with the default comparator and normaliser [Match] ends in a
    panic, not in a failed comparison; storage is untouched. *)
Theorem Match_unopenable_panics (t : T) (actual : Reader)
    (optFns : list MatchOption) (w : World) :
  let opts := applyOptions optFns defaultMatchOptions in
  let p := outputPath t optFns in
  p ∈ open_denied w ->
  opt_Comparator opts = StringComparator ->
  opt_ReaderNormaliser opts = NopReaderNormaliser ->
  exists (msg : string) (w' : World),
    Match t actual optFns w = (Panic msg, w') /\ files w' = files w.
Proof.
  intros opts p Hden Hcmp Hnorm.
  unfold Match. fold opts. fold (outputPath t optFns). fold p.
  set (w0 := set_logs (logs w ++ ["output snapshot filename: " ++ p]) w).
  rewrite (mbind_Ret _ _ w w0 tt) by reflexivity.
  assert (Hop : os_Open p w0
                = (Ret (OpenErr ("open " ++ p ++ ": permission denied")), w0)).
  { unfold os_Open. now rewrite (decide_True (P := p ∈ open_denied w0)). }
  exec Hop. rewrite mbind_mret. cbn [fst snd].
  rewrite Hcmp, Hnorm. unfold NopReaderNormaliser. rewrite !mbind_mret.
  eexists _, w0. split; reflexivity.
Qed.

Lemma createOutputSnapshot_mkdir_denied (p : string) (actual : Reader)
    (w : World) :
  filepath_Dir p ∈ mkdir_denied w ->
  exists (msg : string) (w' : World),
    createOutputSnapshot p actual w = (Fatal msg, w')
    /\ files w' = files w /\ fds w' = fds w.
Proof.
  intros Hden. unfold createOutputSnapshot, mbind, t_Log, os_MkdirAll. simpl.
  rewrite (decide_True (P := filepath_Dir p ∈ mkdir_denied w)) by assumption.
  eexists _, _. split; [reflexivity|]. split; reflexivity.
Qed.

Lemma createOutputSnapshot_create_denied (p : string) (actual : Reader)
    (w : World) :
  p ∈ create_denied w ->
  exists (msg : string) (w' : World),
    createOutputSnapshot p actual w = (Fatal msg, w')
    /\ files w' = files w /\ fds w' = fds w.
Proof.
  intros Hden. unfold createOutputSnapshot, mbind, t_Log, os_MkdirAll, os_Create.
  simpl.
  destruct (decide (filepath_Dir p ∈ mkdir_denied w)).
  - eexists _, _. split; [reflexivity|]. split; reflexivity.
  - simpl. rewrite (decide_True (P := p ∈ create_denied w)) by assumption.
    eexists _, _. split; [reflexivity|]. split; reflexivity.
Qed.

(** X4. A first run whose directory or file cannot be made is fatal: the
    actual stream is not read, no comparison takes place and no artifact
    appears, whatever the options. *)
Theorem Match_cannot_create_is_fatal (t : T) (actual : Reader)
    (optFns : list MatchOption) (w : World) :
  let p := outputPath t optFns in
  p ∉ open_denied w -> files w !! p = None ->
  filepath_Dir p ∈ mkdir_denied w \/ p ∈ create_denied w ->
  exists (msg : string) (w' : World),
    Match t actual optFns w = (Fatal msg, w')
    /\ files w' = files w /\ fds w' = fds w.
Proof.
  intros p Hopen Habs Hden.
  rewrite (Match_absent t actual optFns w Hopen Habs). fold p.
  set (w0 := set_logs (logs w ++ ["output snapshot filename: " ++ p]) w).
  assert (Hfail : exists (msg : string) (w' : World),
             createOutputSnapshot p actual w0 = (Fatal msg, w')
             /\ files w' = files w0 /\ fds w' = fds w0).
  { destruct Hden as [Hden|Hden].
    - now apply createOutputSnapshot_mkdir_denied.
    - now apply createOutputSnapshot_create_denied. }
  destruct Hfail as [msg [w' [Hrun [Hfiles Hfds]]]].
  exists msg, w'. unfold mbind. rewrite Hrun. now split.
Qed.

(** X5. A first run on a stream that breaks after delivering [A] is fatal,
    whatever the comparator, and the bytes read before the error stay
    behind as the artifact. *)
Theorem Match_first_run_read_error (t : T) (A : list ascii) (err : string)
    (optFns : list MatchOption) (w : World) :
  let p := outputPath t optFns in
  p ∉ open_denied w -> files w !! p = None ->
  filepath_Dir p ∉ mkdir_denied w -> p ∉ create_denied w ->
  exists w' : World,
    Match t (MemReader A (Some err)) optFns w
    = (Fatal ("failed to write to newly created snapshot file: " ++ p
                ++ ": " ++ err), w')
    /\ files w' !! p = Some A.
Proof.
  intros p Hopen Habs Hmk Hcr.
  rewrite (Match_absent t _ optFns w Hopen Habs). fold p.
  set (w0 := set_logs (logs w ++ ["output snapshot filename: " ++ p]) w).
  assert (Hrun : exists w' : World,
             createOutputSnapshot p (MemReader A (Some err)) w0
             = (Fatal ("failed to write to newly created snapshot file: " ++ p
                         ++ ": " ++ err), w')
             /\ files w' !! p = Some A).
  { unfold createOutputSnapshot.
    set (w1 := set_logs (logs w0 ++ ["creating new output snapshot"]) w0).
    rewrite (mbind_Ret _ _ w0 w1 tt) by reflexivity.
    exec (os_MkdirAll_ok _ w1 Hmk).
    set (w2 := set_dirs _ w1).
    exec (os_Create_ok p w2 Hcr).
    change (set_fds _ (set_files _ w2)) with (created p [] 0 w2).
    assert (Hcopy : copyToFileAndBuffer (length (fds w2)) (MemReader A (Some err))
                      (created p [] 0 w2)
                    = (Ret (A, Some err), created p A (length A) w2)).
    { unfold copyToFileAndBuffer. simpl readAll. rewrite mbind_mret.
      cbn [fst snd]. now exec (file_Write_created p A w2). }
    exec Hcopy. eexists. split; [reflexivity|]. apply files_created. }
  destruct Hrun as [w' [Hrun Hfile]].
  exists w'. unfold mbind. rewrite Hrun. now split.
Qed.

(** X6. Against an existing artifact the same broken stream is no longer
    fatal: with the default comparator and normaliser [Match] returns a
    failed comparison that names the actual side, and the artifact is
    kept. *)
Theorem Match_existing_read_error (t : T) (E A : list ascii) (err : string)
    (optFns : list MatchOption) (w : World) :
  let opts := applyOptions optFns defaultMatchOptions in
  let p := outputPath t optFns in
  p ∉ open_denied w -> files w !! p = Some E ->
  opt_Comparator opts = StringComparator ->
  opt_ReaderNormaliser opts = NopReaderNormaliser ->
  exists w' : World,
    Match t (MemReader A (Some err)) optFns w
    = (Ret (false, "failed to read actual data from reader: " ++ err), w')
    /\ files w' = files w.
Proof.
  intros opts p Hopen Hfile Hcmp Hnorm.
  destruct (readAll_outputOpened p E w Hfile) as [w2 [Hread Hfiles]].
  exists w2. split; [|exact Hfiles].
  rewrite (Match_present t _ E optFns w Hopen Hfile). fold opts p.
  unfold compareWith. rewrite Hcmp, Hnorm. unfold NopReaderNormaliser.
  rewrite !mbind_mret.
  now apply (StringComparator_actual_fails _ _ E A err _ w2 w2).
Qed.

(** X7. [Match] with [StringDiffComparator] in place of the default, against
    an existing artifact [E]: it passes exactly when the stream delivers
    the bytes of [E], the message is empty exactly when it passes, and the
    artifact is kept. *)
Theorem Match_existing_StringDiff (t : T) (E A : list ascii)
    (optFns : list MatchOption) (w : World) :
  let opts := applyOptions optFns defaultMatchOptions in
  let p := outputPath t optFns in
  p ∉ open_denied w -> files w !! p = Some E ->
  opt_Comparator opts = StringDiffComparator ->
  opt_ReaderNormaliser opts = NopReaderNormaliser ->
  exists (ok : bool) (msg : string) (w' : World),
    Match t (MemReader A None) optFns w = (Ret (ok, msg), w')
    /\ (ok = true <-> E = A)
    /\ (msg = "" <-> ok = true)
    /\ files w' = files w.
Proof.
  intros opts p Hopen Hfile Hcmp Hnorm.
  destruct (readAll_outputOpened p E w Hfile) as [w2 [Hread Hfiles]].
  destruct (StringDiffComparator_contract (FileReader (length (fds w)))
              (MemReader A None) E A (outputOpened p w) (outputOpened p w) w2
              eq_refl Hread) as [ok [msg [Hrun [Hok Hmsg]]]].
  exists ok, msg, w2. split; [|now split].
  rewrite (Match_present t _ E optFns w Hopen Hfile). fold opts p.
  unfold compareWith. rewrite Hcmp, Hnorm. unfold NopReaderNormaliser.
  rewrite !mbind_mret. exact Hrun.
Qed.

(* ===================================================================== *)
(** ** More on GetTestInput *)
(* ===================================================================== *)

Lemma GetTestInput_absent (t : T) (optFns : list GetTestInputOption)
    (g : SnapshotCreator) (w : World) :
  let opts := applyOptions optFns defaultGetTestInputOptions in
  let p := inputPath t optFns in
  p ∉ open_denied w -> files w !! p = None ->
  CreateSnapshot opts = Some g ->
  GetTestInput t optFns w
  = (do r <- g;
     match snd r with
     | Some err => t_Fatalf ("snapshot creator failed with an error " ++ err)
     | None => createInputSnapshot p (fst r)
     end) (set_logs (logs w ++ ["input snapshot filename: " ++ p]) w).
Proof.
  intros opts p Hopen Habs Hg.
  unfold GetTestInput. fold opts. fold (inputPath t optFns). fold p.
  exec (os_Open_absent p w Hopen Habs).
  rewrite (mbind_Ret _ _ w _ tt) by reflexivity.
  now rewrite Hg.
Qed.

(** X8. A creator that returns an error makes [GetTestInput] fatal with that
    error; the world is the one the creator left, plus the log line: no
    directory and no artifact were made. *)
Theorem GetTestInput_creator_error (t : T) (optFns : list GetTestInputOption)
    (g : SnapshotCreator) (r : Reader) (err : string) (w wg : World) :
  let opts := applyOptions optFns defaultGetTestInputOptions in
  let p := inputPath t optFns in
  p ∉ open_denied w -> files w !! p = None ->
  CreateSnapshot opts = Some g ->
  g (set_logs (logs w ++ ["input snapshot filename: " ++ p]) w)
    = (Ret (r, Some err), wg) ->
  GetTestInput t optFns w
  = (Fatal ("snapshot creator failed with an error " ++ err),
     set_logs (logs wg ++ ["snapshot creator failed with an error " ++ err]) wg).
Proof.
  intros opts p Hopen Habs Hg Hrun.
  rewrite (GetTestInput_absent t optFns g w Hopen Habs Hg). fold p.
  now exec Hrun.
Qed.

Lemma createInputSnapshot_denied (p : string) (src : Reader) (w : World) :
  filepath_Dir p ∈ mkdir_denied w \/ p ∈ create_denied w ->
  exists (msg : string) (w' : World),
    createInputSnapshot p src w = (Fatal msg, w')
    /\ files w' = files w /\ fds w' = fds w.
Proof.
  intros Hden. unfold createInputSnapshot, mbind, t_Log, os_MkdirAll, os_Create.
  simpl.
  destruct (decide (filepath_Dir p ∈ mkdir_denied w)) as [Hmk|Hmk].
  - eexists _, _. split; [reflexivity|]. split; reflexivity.
  - destruct Hden as [Hden|Hden]; [contradiction|]. simpl.
    rewrite (decide_True (P := p ∈ create_denied w)) by assumption.
    eexists _, _. split; [reflexivity|]. split; reflexivity.
Qed.

(** X9. When the creator has delivered its stream but the directory or the
    file cannot be made, [GetTestInput] is fatal: the stream is dropped
    unread and no artifact appears. *)
Theorem GetTestInput_cannot_create_is_fatal (t : T)
    (optFns : list GetTestInputOption) (g : SnapshotCreator) (src : Reader)
    (w wg : World) :
  let opts := applyOptions optFns defaultGetTestInputOptions in
  let p := inputPath t optFns in
  p ∉ open_denied w -> files w !! p = None ->
  CreateSnapshot opts = Some g ->
  g (set_logs (logs w ++ ["input snapshot filename: " ++ p]) w)
    = (Ret (src, None), wg) ->
  filepath_Dir p ∈ mkdir_denied wg \/ p ∈ create_denied wg ->
  exists (msg : string) (w' : World),
    GetTestInput t optFns w = (Fatal msg, w')
    /\ files w' = files wg /\ fds w' = fds wg.
Proof.
  intros opts p Hopen Habs Hg Hrun Hden.
  rewrite (GetTestInput_absent t optFns g w Hopen Habs Hg). fold p.
  exec Hrun. now apply createInputSnapshot_denied.
Qed.

(** X10. An artifact that is there but cannot be opened makes [GetTestInput]
    fatal whatever the options: the world is the old one plus two log
    lines, so no creator was run and nothing was made. *)
Theorem GetTestInput_unopenable_is_fatal (t : T)
    (optFns : list GetTestInputOption) (w : World) :
  let p := inputPath t optFns in
  p ∈ open_denied w ->
  GetTestInput t optFns w
  = (Fatal "error opening input snapshot file",
     set_logs ((logs w ++ ["input snapshot filename: " ++ p])
                 ++ ["error opening input snapshot file"]) w).
Proof.
  intros p Hden.
  unfold GetTestInput. fold (inputPath t optFns). fold p.
  assert (Hop : os_Open p w
                = (Ret (OpenErr ("open " ++ p ++ ": permission denied")), w)).
  { unfold os_Open. now rewrite (decide_True (P := p ∈ open_denied w)). }
  exec Hop. now rewrite (mbind_Ret _ _ w _ tt) by reflexivity.
Qed.

(* ===================================================================== *)
(** ** More on the comparators and on AsJSON *)
(* ===================================================================== *)

Lemma quotesAsIs_facts (c : ascii) :
  quotesAsIs c = true ->
  let n := N_of_ascii c in
  (n <? 0x80)%N = true /\ (n =? RuneError)%N = false
  /\ (n =? 34)%N = false /\ (n =? 92)%N = false
  /\ (n <=? 0xFF)%N = true /\ between 0x20 0x7E n = true.
Proof.
  unfold quotesAsIs. intros H. cbv zeta. set (n := N_of_ascii c) in *.
  apply andb_prop in H as [H H92]. apply andb_prop in H as [Hb H34].
  apply negb_true_iff in H92, H34.
  assert (Hb' := Hb). unfold between in Hb'.
  apply andb_prop in Hb' as [Hlo Hhi].
  apply N.leb_le in Hlo, Hhi.
  repeat split; try assumption.
  - apply N.ltb_lt. lia.
  - apply N.eqb_neq. unfold RuneError. lia.
  - apply N.leb_le. lia.
Qed.

Lemma quote_step_plain (c : ascii) (rest : string) :
  quotesAsIs c = true -> quote_step (String c rest) = (String c "", 1).
Proof.
  intros H. destruct (quotesAsIs_facts c H) as [H80 [Herr [H34 [H92 [Hff Hb]]]]].
  unfold quote_step, utf8_DecodeRuneInString.
  change (list_ascii_of_string (String c rest))
    with (c :: list_ascii_of_string rest).
  cbv beta iota. rewrite H80. cbv beta iota. rewrite Herr.
  rewrite andb_false_r. rewrite H34, H92. cbv beta iota. simpl orb.
  unfold strconv_IsPrint. rewrite Hff, Hb. cbv iota.
  unfold utf8_EncodeRune. rewrite H80. unfold byte_string. simpl.
  now rewrite ascii_N_embedding.
Qed.

Lemma quote_loop_plain (s : string) : plainText s = true -> quote_loop 0 s = s.
Proof.
  unfold plainText. induction s as [|c s IH]; [reflexivity|].
  change (list_ascii_of_string (String c s)) with (c :: list_ascii_of_string s).
  simpl forallb. intros H. apply andb_prop in H as [Hc Hs].
  change (quote_loop 0 (String c s))
    with (let '(out, width) := quote_step (String c s) in
          out ++ quote_loop (width - 1) s).
  rewrite (quote_step_plain c s Hc). cbv beta iota. simpl Nat.sub.
  now rewrite (IH Hs).
Qed.

(** X13. For two different texts of printable ASCII without quote or backslash,
    the message of [StringComparator] is the two texts as they are, each
    between double quotes: [expected "e", got "a"]. *)
Theorem StringComparator_plain_message (e a : string) (w : World) :
  plainText e = true -> plainText a = true -> e <> a ->
  StringComparator (MemReader (list_ascii_of_string e) None)
    (MemReader (list_ascii_of_string a) None) w
  = (Ret (false, "expected " ++ (DQUOTE ++ e ++ DQUOTE)
                   ++ ", got " ++ (DQUOTE ++ a ++ DQUOTE)), w).
Proof.
  intros He Ha Hne.
  rewrite (StringComparator_reads (MemReader (list_ascii_of_string e) None)
             (MemReader (list_ascii_of_string a) None) (list_ascii_of_string e)
             (list_ascii_of_string a) w w w eq_refl eq_refl).
  unfold textVerdict. rewrite decide_False.
  - rewrite !string_of_list_ascii_of_string. unfold strconv_Quote.
    now rewrite (quote_loop_plain e He), (quote_loop_plain a Ha).
  - intros Heq. apply Hne.
    rewrite <- (string_of_list_ascii_of_string e).
    rewrite <- (string_of_list_ascii_of_string a). now rewrite Heq.
Qed.

(** X17. [AsJSON] calls its argument once and no deeper: a callable of no
    argument whose one result is not a function is serialised exactly as
    that result is; if the result is itself a function it is not called
    but handed to the encoder, which refuses it; and a callable that
    requires arguments makes the reflective call panic. *)
Theorem AsJSON_calls_once (ty : string) :
  (forall v : GoValue, is_Func v = false ->
      AsJSON (VFunc ty 0 [v]) = AsJSON v)
  /\ (forall (ty' : string) (n : nat) (rs : list GoValue),
      AsJSON (VFunc ty 0 [VFunc ty' n rs])
      = Ret (MemReader [] None,
             Some ("failed to encode snapshot as JSON: json: unsupported type: "
                     ++ ty')))
  /\ (forall (n : nat) (results : list GoValue),
      exists msg : string, AsJSON (VFunc ty (S n) results) = Panic msg).
Proof.
  split; [|split].
  - intros v Hv. destruct v; try reflexivity. discriminate.
  - reflexivity.
  - intros n results. eexists. reflexivity.
Qed.

Lemma AsJSON_success_reader (i : GoValue) (out : Reader) :
  AsJSON i = Ret (out, None) -> exists d : list ascii, out = MemReader d None.
Proof.
  assert (Henc : forall v, encodeJSON v = (out, None) ->
            exists d : list ascii, out = MemReader d None).
  { intros v. unfold encodeJSON. cbv zeta.
    destruct (Encoder_Encode _ v) as [buf [e|]];
      intros H; inversion H. now exists buf. }
  destruct i as [| | | | | | |ty numIn results]; simpl; intros H;
    try (inversion H as [Hv]; exact (Henc _ Hv)).
  destruct numIn as [|n]; [|discriminate].
  destruct results as [|r [|r' rest]]; simpl in H; try discriminate.
  inversion H as [Hv]. exact (Henc _ Hv).
Qed.

(** X14. A fixture made with [WithCreateSnapshotAsJSON] as the last option is
    named [.json]. If [AsJSON] fails, [GetTestInput] is fatal with that
    error before any directory or file is made; if it succeeds, the caller
    reads the serialised bytes, and after that read the artifact holds
    the same bytes. *)
Theorem GetTestInput_AsJSON_fixture (t : T) (optFns : list GetTestInputOption)
    (i : GoValue) (w : World) :
  let fns := (optFns ++ [WithCreateSnapshotAsJSON i])%list in
  let p := jsonPath t optFns in
  let wa := set_logs (logs w ++ ["input snapshot filename: " ++ p]) w in
  p ∉ open_denied w -> files w !! p = None ->
  inputPath t fns = p
  /\ (forall (r : Reader) (err : string),
        AsJSON i = Ret (r, Some err) ->
        GetTestInput t fns w
        = (Fatal ("snapshot creator failed with an error " ++ err),
           set_logs (logs wa ++ ["snapshot creator failed with an error " ++ err])
             wa))
  /\ (forall out : Reader,
        AsJSON i = Ret (out, None) ->
        filepath_Dir p ∉ mkdir_denied w -> p ∉ create_denied w ->
        exists (d : list ascii) (input : Reader) (w1 w2 : World),
          out = MemReader d None
          /\ GetTestInput t fns w = (Ret input, w1)
          /\ readAll input w1 = (Ret (d, None), w2)
          /\ files w2 !! p = Some d).
Proof.
  intros fns p wa Hopen Habs.
  assert (Hp : inputPath t fns = p).
  { unfold inputPath, fns, applyOptions. now rewrite fold_left_app. }
  assert (Hg : CreateSnapshot (applyOptions fns defaultGetTestInputOptions)
               = Some (fun w => (AsJSON i, w))).
  { unfold fns, applyOptions. now rewrite fold_left_app. }
  split; [exact Hp|]. split.
  - intros r err Hi.
    assert (Hopen' : inputPath t fns ∉ open_denied w) by now rewrite Hp.
    assert (Habs' : files w !! inputPath t fns = None) by now rewrite Hp.
    rewrite (GetTestInput_absent t fns _ w Hopen' Habs' Hg). rewrite Hp. fold wa.
    unfold mbind. now rewrite Hi.
  - intros out Hi Hmk Hcr.
    destruct (AsJSON_success_reader i out Hi) as [d ->].
    exists d, (TeeReader (MemReader d None) (length (fds wa))),
      (inputCreated p wa), (inputWritten p d wa).
    split; [reflexivity|]. split; [|split].
    + rewrite <- Hp.
      apply (GetTestInput_creates t fns (fun w => (AsJSON i, w)));
        rewrite ?Hp; try assumption. fold wa. now rewrite Hi.
    + apply readAll_tee_created.
    + apply files_created.
Qed.

(** C10 (as amended). Whenever [AsJSON] succeeds, the stream holds the
    encoding of the value indented with no prefix and two spaces, followed
    by exactly one newline. A snapshot that [Match] creates from that
    stream holds these bytes, so it ends with the newline. A fixture
    created with [WithCreateSnapshotAsJSON] is empty when [GetTestInput]
    returns and holds these bytes once the returned stream has been read
    to its end. *)
Theorem AsJSON_artifacts_end_with_newline (t : T) (i : GoValue) (out : Reader) :
  AsJSON i = Ret (out, None) ->
  exists (v : GoValue) (b : string),
    let text := (list_ascii_of_string (json_Indent "" "  " b)
                   ++ [ascii_of_N 10])%list in
    serialises i v
    /\ json_Marshal v = inl b
    /\ out = MemReader text None
    /\ (forall body : string, json_Indent "" "  " b <> body ++ NL)
    /\ (forall (optFns : list MatchOption) (w : World),
          let opts := applyOptions optFns defaultMatchOptions in
          let p := outputPath t optFns in
          p ∉ open_denied w -> files w !! p = None ->
          filepath_Dir p ∉ mkdir_denied w -> p ∉ create_denied w ->
          (exists (w1 : World) (file : nat),
              files w1 !! p = Some text
              /\ Match t out optFns w
                 = compareWith opts (FileReader file) out w1)
          /\ (opt_Comparator opts = StringComparator ->
              opt_ReaderNormaliser opts = NopReaderNormaliser ->
              exists w' : World,
                Match t out optFns w = (Ret (true, ""), w')
                /\ files w' !! p = Some text))
    /\ (forall (optFns : list GetTestInputOption) (w : World),
          let fns := (optFns ++ [WithCreateSnapshotAsJSON i])%list in
          let p := inputPath t fns in
          p ∉ open_denied w -> files w !! p = None ->
          filepath_Dir p ∉ mkdir_denied w -> p ∉ create_denied w ->
          exists (input : Reader) (w1 w2 : World),
            GetTestInput t fns w = (Ret input, w1)
            /\ files w1 !! p = Some []
            /\ readAll input w1 = (Ret (text, None), w2)
            /\ files w2 !! p = Some text).
Proof.
  intros Hi.
  destruct (AsJSON_success_bytes i out Hi) as [v [b [Hv [Hb [Hout Hend]]]]].
  exists v, b. cbv zeta. fold (json_indent b).
  split; [exact Hv|]. split; [exact Hb|]. split; [exact Hout|].
  split; [exact Hend|].
  set (text := (list_ascii_of_string (json_indent b) ++ [ascii_of_N 10])%list)
    in *.
  subst out. split.
  - intros optFns w Hopen Habs Hmk Hcr. split.
    + set (p := outputPath t optFns).
      set (w0 := set_logs (logs w ++ ["output snapshot filename: " ++ p]) w).
      exists (created p text 0
                (set_dirs ({[filepath_Dir p]} ∪ dirs w0)
                   (set_logs (logs w0 ++ ["creating new output snapshot"]) w0))),
        (length (fds w)).
      split; [apply files_created|].
      rewrite (Match_absent t _ optFns w Hopen Habs). fold p w0.
      now exec (createOutputSnapshot_ok p text w0 Hmk Hcr).
    + intros Hcmp Hnorm.
      exists (outputCreated (outputPath t optFns) text (length text) w). split.
      * now apply Match_first_run_defaults.
      * apply files_created.
  - intros optFns w Hopen Habs Hmk Hcr.
    set (fns := (optFns ++ [WithCreateSnapshotAsJSON i])%list) in *.
    set (p := inputPath t fns) in *.
    set (wa := set_logs (logs w ++ ["input snapshot filename: " ++ p]) w).
    assert (Hg : CreateSnapshot (applyOptions fns defaultGetTestInputOptions)
                 = Some (fun w => (AsJSON i, w))).
    { unfold fns, applyOptions. now rewrite fold_left_app. }
    exists (TeeReader (MemReader text None) (length (fds wa))),
      (inputCreated p wa), (inputWritten p text wa).
    split; [|split; [|split]].
    + apply (GetTestInput_creates t fns (fun w => (AsJSON i, w)));
        try assumption. fold p wa. now rewrite Hi.
    + apply files_created.
    + apply readAll_tee_created.
    + apply files_created.
Qed.

(* ===================================================================== *)
(** ** Loading and matching together *)
(* ===================================================================== *)

Lemma file_Write_at (fd : nat) (q : string) (d : list ascii) (w : World) :
  fds w !! fd = Some (mkOpenFile q 0) -> files w !! q = Some [] ->
  file_Write fd d w
  = (Ret None,
     set_fds (<[fd := mkOpenFile q (length d)]> (fds w))
       (set_files (<[q := d]> (files w)) w)).
Proof.
  intros Hfd Hf. unfold file_Write. rewrite Hfd. simpl. rewrite Hf. simpl.
  now rewrite write_at_start.
Qed.

Lemma file_Seek0_at (fd : nat) (f : OpenFile) (w : World) :
  fds w !! fd = Some f ->
  file_Seek0 fd w
  = (Ret None, set_fds (<[fd := mkOpenFile (of_path f) 0]> (fds w)) w).
Proof. intros Hfd. unfold file_Seek0. now rewrite Hfd. Qed.

(** The first run of [Match] on the tee that [GetTestInput] has just
    returned: both artifacts end up with the bytes of the stream. *)
Lemma createOutputSnapshot_of_tee (pin pout : string) (d : list ascii)
    (wg : World) :
  pin <> pout ->
  filepath_Dir pout ∉ mkdir_denied wg -> pout ∉ create_denied wg ->
  exists w' : World,
    createOutputSnapshot pout (TeeReader (MemReader d None) (length (fds wg)))
      (set_logs (logs (inputCreated pin wg)
                   ++ ["output snapshot filename: " ++ pout])
         (inputCreated pin wg))
    = (Ret (FileReader (S (length (fds wg))), MemReader d None), w')
    /\ fds w' !! S (length (fds wg)) = Some (mkOpenFile pout 0)
    /\ files w' !! pin = Some d
    /\ files w' !! pout = Some d.
Proof.
  intros Hne Hmk Hcr.
  set (w0 := set_logs _ (inputCreated pin wg)).
  set (fin := length (fds wg)).
  assert (Hlen0 : length (fds w0) = S fin).
  { simpl. rewrite length_app. simpl. unfold fin. lia. }
  unfold createOutputSnapshot.
  set (w1 := set_logs (logs w0 ++ ["creating new output snapshot"]) w0).
  rewrite (mbind_Ret _ _ w0 w1 tt) by reflexivity.
  exec (os_MkdirAll_ok (filepath_Dir pout) w1 Hmk).
  set (w2 := set_dirs _ w1).
  exec (os_Create_ok pout w2 Hcr).
  change (length (fds w2)) with (length (fds w0)). rewrite Hlen0.
  set (w3 := set_fds _ (set_files _ w2)).
  assert (Hfds3 : fds w3 = ((fds wg ++ [mkOpenFile pin 0])
                              ++ [mkOpenFile pout 0])%list) by reflexivity.
  assert (Hfiles3 : files w3 = <[pout := []]> (<[pin := []]> (files wg)))
    by reflexivity.
  assert (Hin3 : fds w3 !! fin = Some (mkOpenFile pin 0)).
  { rewrite Hfds3. rewrite lookup_app_l.
    - apply lookup_fresh_fd.
    - rewrite length_app. simpl. unfold fin. lia. }
  assert (Hpin3 : files w3 !! pin = Some []).
  { rewrite Hfiles3. rewrite lookup_insert_ne by congruence.
    apply lookup_insert_eq. }
  set (w4 := set_fds (<[fin := mkOpenFile pin (length d)]> (fds w3))
               (set_files (<[pin := d]> (files w3)) w3)).
  assert (Htee : readAll (TeeReader (MemReader d None) fin) w3
                 = (Ret (d, None), w4)).
  { simpl readAll. rewrite mbind_mret. cbn [fst snd].
    now exec (file_Write_at fin pin d w3 Hin3 Hpin3). }
  assert (Hfds4 : fds w4 = <[fin := mkOpenFile pin (length d)]> (fds w3))
    by reflexivity.
  assert (Hfiles4 : files w4 = <[pin := d]> (files w3)) by reflexivity.
  assert (Hout4 : fds w4 !! S fin = Some (mkOpenFile pout 0)).
  { rewrite Hfds4. rewrite list_lookup_insert_ne by lia.
    rewrite Hfds3.
    replace (S fin) with (length (fds wg ++ [mkOpenFile pin 0])%list)
      by (rewrite length_app; simpl; unfold fin; lia).
    apply lookup_fresh_fd. }
  assert (Hpout4 : files w4 !! pout = Some []).
  { rewrite Hfiles4. rewrite lookup_insert_ne by congruence.
    rewrite Hfiles3. apply lookup_insert_eq. }
  set (w5 := set_fds (<[S fin := mkOpenFile pout (length d)]> (fds w4))
               (set_files (<[pout := d]> (files w4)) w4)).
  assert (Hfds5 : fds w5 = <[S fin := mkOpenFile pout (length d)]> (fds w4))
    by reflexivity.
  assert (Hfiles5 : files w5 = <[pout := d]> (files w4)) by reflexivity.
  assert (Hcopy : copyToFileAndBuffer (S fin) (TeeReader (MemReader d None) fin) w3
                  = (Ret (d, None), w5)).
  { unfold copyToFileAndBuffer. exec Htee.
    now exec (file_Write_at (S fin) pout d w4 Hout4 Hpout4). }
  exec Hcopy.
  assert (Hlen4 : S fin < length (fds w4)).
  { apply lookup_lt_Some in Hout4. exact Hout4. }
  assert (Hout5 : fds w5 !! S fin = Some (mkOpenFile pout (length d))).
  { rewrite Hfds5. now apply list_lookup_insert_eq. }
  exec (file_Seek0_at (S fin) _ w5 Hout5).
  set (w6 := set_fds _ w5).
  assert (Hfds6 : fds w6 = <[S fin := mkOpenFile pout 0]> (fds w5))
    by reflexivity.
  assert (Hfiles6 : files w6 = files w5) by reflexivity.
  exists w6. split; [reflexivity|]. split; [|split].
  - rewrite Hfds6. apply list_lookup_insert_eq.
    rewrite Hfds5. now rewrite length_insert.
  - rewrite Hfiles6, Hfiles5. rewrite lookup_insert_ne by congruence.
    rewrite Hfiles4. apply lookup_insert_eq.
  - rewrite Hfiles6, Hfiles5. apply lookup_insert_eq.
Qed.

(** X15. The body of [TestRoundTrip] on a first run: the input is created from
    a stream that delivers [d], the tee returned is matched against an
    output snapshot that does not exist yet and whose cleaned path is not
    the cleaned path of the input; with the default comparator and
    normaliser the match passes, and the single pass over the stream
    leaves [d] in the input artifact and in the output artifact. *)
Theorem loadAndMatch_first_run (t : T) (inFns : list GetTestInputOption)
    (outFns : list MatchOption) (g : SnapshotCreator) (d : list ascii)
    (w wg : World) :
  let iopts := applyOptions inFns defaultGetTestInputOptions in
  let oopts := applyOptions outFns defaultMatchOptions in
  let pin := inputPath t inFns in
  let pout := outputPath t outFns in
  pin <> pout ->
  pin ∉ open_denied w -> files w !! pin = None ->
  CreateSnapshot iopts = Some g ->
  g (set_logs (logs w ++ ["input snapshot filename: " ++ pin]) w)
    = (Ret (MemReader d None, None), wg) ->
  filepath_Dir pin ∉ mkdir_denied wg -> pin ∉ create_denied wg ->
  pout ∉ open_denied wg -> files wg !! pout = None ->
  filepath_Dir pout ∉ mkdir_denied wg -> pout ∉ create_denied wg ->
  opt_Comparator oopts = StringComparator ->
  opt_ReaderNormaliser oopts = NopReaderNormaliser ->
  exists w' : World,
    loadAndMatch t inFns outFns w = (Ret (true, ""), w')
    /\ files w' !! pin = Some d
    /\ files w' !! pout = Some d.
Proof.
  intros iopts oopts pin pout Hne Hopen Habs Hg Hrun Hmk Hcr Hopen' Habs' Hmk'
    Hcr' Hcmp Hnorm.
  unfold loadAndMatch.
  exec (GetTestInput_creates t inFns g (MemReader d None) w wg Hopen Habs Hg Hrun
          Hmk Hcr).
  fold pin.
  assert (Hopen1 : pout ∉ open_denied (inputCreated pin wg)) by exact Hopen'.
  assert (Habs1 : files (inputCreated pin wg) !! pout = None).
  { simpl files. now rewrite lookup_insert_ne by congruence. }
  rewrite (Match_absent t _ outFns _ Hopen1 Habs1). fold oopts pout.
  destruct (createOutputSnapshot_of_tee pin pout d wg Hne Hmk' Hcr')
    as [w1 [Hcreate [Hfd [Hpin Hpout]]]].
  exec Hcreate.
  unfold compareWith. rewrite Hcmp, Hnorm. unfold NopReaderNormaliser.
  rewrite !mbind_mret.
  set (w2 := set_fds (<[S (length (fds wg))
                        := mkOpenFile pout (0 `max` length d)]> (fds w1)) w1).
  exists w2. split; [|split; assumption].
  rewrite (StringComparator_reads _ _ d d w1 w2 w2).
  - unfold textVerdict. now rewrite decide_True.
  - simpl readAll.
    now rewrite (file_readAll_at _ (mkOpenFile pout 0) d w1 Hfd Hpout).
  - reflexivity.
Qed.

(** X18. The body of [TestRoundTrip] on a later run, when both artifacts
    exist: the input artifact is read back and judged against the output
    artifact, with the default comparator and normaliser; the result is
    the verdict on the two stored texts and no file is changed. *)
Theorem loadAndMatch_later_run (t : T) (inFns : list GetTestInputOption)
    (outFns : list MatchOption) (d e : list ascii) (w : World) :
  let oopts := applyOptions outFns defaultMatchOptions in
  let pin := inputPath t inFns in
  let pout := outputPath t outFns in
  pin ∉ open_denied w -> files w !! pin = Some d ->
  pout ∉ open_denied w -> files w !! pout = Some e ->
  opt_Comparator oopts = StringComparator ->
  opt_ReaderNormaliser oopts = NopReaderNormaliser ->
  exists w' : World,
    loadAndMatch t inFns outFns w = (Ret (textVerdict e d), w')
    /\ files w' = files w.
Proof.
  intros oopts pin pout Hopen Hd Hopen' He Hcmp Hnorm.
  unfold loadAndMatch.
  exec (GetTestInput_existing t inFns d w Hopen Hd). fold pin.
  set (fin := length (fds w)).
  set (w1 := opened pin w).
  assert (Hopen1 : pout ∉ open_denied w1) by exact Hopen'.
  assert (He1 : files w1 !! pout = Some e) by exact He.
  rewrite (Match_present t _ e outFns w1 Hopen1 He1). fold oopts pout.
  unfold compareWith. rewrite Hcmp, Hnorm. unfold NopReaderNormaliser.
  rewrite !mbind_mret.
  set (w2 := outputOpened pout w1).
  set (fout := length (fds w1)).
  assert (Hfout : fout = S fin).
  { unfold fout, w1, fin. simpl. rewrite length_app. simpl. lia. }
  assert (Hfds2 : fds w2 = (fds w1 ++ [mkOpenFile pout 0])%list) by reflexivity.
  assert (Hfds1 : fds w1 = (fds w ++ [mkOpenFile pin 0])%list) by reflexivity.
  set (w3 := set_fds (<[fout := mkOpenFile pout (0 `max` length e)]> (fds w2)) w2).
  assert (Hexp : readAll (FileReader fout) w2 = (Ret (e, None), w3)).
  { simpl readAll.
    rewrite (file_readAll_at fout (mkOpenFile pout 0) e w2); [reflexivity| |exact He].
    rewrite Hfds2. apply lookup_fresh_fd. }
  assert (Hin3 : fds w3 !! fin = Some (mkOpenFile pin 0)).
  { change (fds w3) with (<[fout := mkOpenFile pout (0 `max` length e)]> (fds w2)).
    rewrite list_lookup_insert_ne by lia.
    rewrite Hfds2, lookup_app_l.
    - rewrite Hfds1. apply lookup_fresh_fd.
    - fold fout. lia. }
  set (w4 := set_fds (<[fin := mkOpenFile pin (0 `max` length d)]> (fds w3)) w3).
  assert (Hact : readAll (NopCloser (FileReader fin)) w3 = (Ret (d, None), w4)).
  { simpl readAll.
    now rewrite (file_readAll_at fin (mkOpenFile pin 0) d w3 Hin3 Hd). }
  exists w4. split; [|reflexivity].
  now apply (StringComparator_reads _ _ e d w2 w3 w4).
Qed.

(** X19. Two loads in a row with the first stream left unread: the first
    load has made the artifact but written nothing to it, so the second
    load, whatever creator it is given, finds the empty artifact and the
    caller reads the empty text from it, not the data of the first
    creator. *)
Theorem loadTwice_without_reading (t : T) (optFns : list GetTestInputOption)
    (g1 : SnapshotCreator) (d : list ascii) (e : option string) (w wg : World) :
  let p := inputPath t optFns in
  p ∉ open_denied w -> files w !! p = None ->
  g1 (set_logs (logs w ++ ["input snapshot filename: " ++ p]) w)
    = (Ret (MemReader d e, None), wg) ->
  filepath_Dir p ∉ mkdir_denied wg -> p ∉ create_denied wg ->
  p ∉ open_denied wg ->
  exists w' : World,
    (forall g2 : SnapshotCreator,
        loadTwiceUnread t optFns g1 g2 w = (Ret "", w'))
    /\ files w' !! p = Some [].
Proof.
  intros p Hopen Habs Hg Hmk Hcr Hopen'.
  assert (Hopen1 : p ∉ open_denied (inputCreated p wg)) by exact Hopen'.
  assert (Hfile1 : files (inputCreated p wg) !! p = Some [])
    by apply files_created.
  destruct (load_existing t optFns [] _ Hopen1 Hfile1) as [w2 [Hf2 [_ Hk2]]].
  exists w2. split.
  - intros g2. unfold loadTwiceUnread.
    assert (Hp : inputPath t (optFns ++ [WithCreateSnapshot g1]) = p)
      by apply inputPath_WithCreateSnapshot.
    rewrite (mbind_Ret _ _ w (inputCreated p wg)
               (TeeReader (MemReader d e) (length (fds wg)))).
    + specialize (Hk2 g2 string (fun s => mret s)).
      unfold mbind at 1 2 in Hk2. unfold mbind at 1.
      destruct (GetTestInput t (optFns ++ [WithCreateSnapshot g2])
                  (inputCreated p wg)) as [[r|m|m] wx]; try exact Hk2.
      destruct (readToStringUnchecked r wx) as [[s|m|m] wy]; exact Hk2.
    + rewrite <- Hp.
      apply (GetTestInput_creates t _ g1); rewrite ?Hp; try assumption.
      apply CreateSnapshot_WithCreateSnapshot.
  - now rewrite Hf2.
Qed.

End Snapshot.

(* ===================================================================== *)
(** ** The statements at concrete inputs *)
(* ===================================================================== *)

Lemma not_in_empty (p : string) : p ∉ (∅ : gset string).
Proof. apply not_elem_of_empty. Defined.

Lemma lineReport_nonempty (x y : CmpValue) :
  cmp_Equal x y = false -> lineReport x y <> "".
Proof. intros _. discriminate. Defined.

Lemma string_app_assoc (a b c : string) : (a ++ b) ++ c = a ++ (b ++ c).
Proof.
  induction a as [|x a IH]; [reflexivity|].
  change (String x ((a ++ b) ++ c) = String x (a ++ (b ++ c))). now rewrite IH.
Defined.

Lemma lastChar_app (s : string) (c : ascii) :
  lastChar (s ++ String c "") = Some c.
Proof.
  induction s as [|x s IH]; [reflexivity|].
  change (lastChar (String x (s ++ String c "")) = Some c).
  destruct s as [|y s]; [reflexivity|exact IH].
Defined.

Lemma stripNewline_app (b : string) : stripNewline (b ++ NL) = Some b.
Proof.
  induction b as [|x b IH]; [reflexivity|].
  change (stripNewline (String x (b ++ NL)) = Some (String x b)).
  destruct b as [|y b]; [reflexivity|].
  change (option_map (String x) (stripNewline (String y b ++ NL))
          = Some (String x (String y b))).
  now rewrite IH.
Defined.

Lemma stripNewline_closing (s : string) (c : ascii) :
  lastChar s = Some c -> closing c = true -> stripNewline s = None.
Proof.
  induction s as [|x s IH]; [discriminate|].
  destruct s as [|y s].
  - simpl. intros [= ->] Hc. unfold closing, isSpace in Hc.
    destruct (Ascii.eqb c LF); [|reflexivity].
    rewrite !orb_true_r in Hc. discriminate.
  - intros Hl Hc. change (stripNewline (String x (String y s)))
      with (option_map (String x) (stripNewline (String y s))).
    now rewrite (IH Hl Hc).
Defined.

Lemma indentStep_closing (prefix indent : string) (st : Indenter) (c : ascii) :
  closing c = true ->
  lastChar (ind_out (indentStep prefix indent st c)) = Some c.
Proof.
  unfold closing. intros Hc.
  apply andb_prop in Hc as [Hc Hcolon]. apply andb_prop in Hc as [Hspace Hcomma].
  apply negb_true_iff in Hspace, Hcomma, Hcolon.
  unfold indentStep. rewrite Hspace, Hcomma, Hcolon.
  destruct (ind_inString st); [apply lastChar_app|].
  destruct (ind_need st && negb (isCloser c));
    destruct (Ascii.eqb c QUOTE); try apply lastChar_app;
    destruct (Ascii.eqb c "{" || Ascii.eqb c "["); try apply lastChar_app;
    destruct (isCloser c); try apply lastChar_app;
    destruct (ind_need st); apply lastChar_app.
Defined.

Lemma indentWalk_closing (prefix indent x : string) (c : ascii) :
  closing c = true ->
  lastChar (indentWalk prefix indent (x ++ String c "")) = Some c.
Proof.
  intros Hc. unfold indentWalk. rewrite list_ascii_of_string_app.
  rewrite fold_left_app. simpl. now apply indentStep_closing.
Defined.

Lemma digitChar_closing (k : N) : closing (digitChar k) = true.
Proof.
  unfold digitChar.
  destruct (N.to_nat k) as [|[|[|[|[|[|[|[|[|n]]]]]]]]]; reflexivity.
Defined.

(** A successful encoding ends in a character that closes a value. *)
Lemma fragmentMarshal_closing (v : GoValue) (b : string) :
  fragmentMarshal v = inl b ->
  exists (x : string) (c : ascii), b = x ++ String c "" /\ closing c = true.
Proof.
  destruct v as [|[|]|n|s|xs|fs|ty|ty numIn results]; simpl; intros H;
    try discriminate.
  - inversion H. now exists "nul", "l"%char.
  - inversion H. now exists "tru", "e"%char.
  - inversion H. now exists "fals", "e"%char.
  - inversion H. unfold formatInt.
    set (m := Z.abs_N n).
    change (decimal (S (N.to_nat (N.log2 m))) m)
      with ((if (m <? 10)%N then "" else decimal (N.to_nat (N.log2 m)) (m / 10)%N)
              ++ String (digitChar (m mod 10)%N) "").
    rewrite <- string_app_assoc. eexists _, _. split; [reflexivity|].
    apply digitChar_closing.
  - unfold quoted in H. destruct (plainString s); [|discriminate].
    inversion H. now exists (String QUOTE s), QUOTE.
  - match type of H with
    | match ?t with _ => _ end = _ => destruct t as [body|e]; [|discriminate]
    end.
    inversion H. exists ("[" ++ body), "]"%char. split; [|reflexivity].
    now rewrite string_app_assoc.
  - match type of H with
    | match ?t with _ => _ end = _ => destruct t as [body|e]; [|discriminate]
    end.
    inversion H. exists ("{" ++ body), "}"%char. split; [|reflexivity].
    now rewrite string_app_assoc.
Defined.

Lemma fragmentIndent_newline (v : GoValue) (b : string) :
  fragmentMarshal v = inl b ->
  json_indent fragmentIndent (b ++ NL) = json_indent fragmentIndent b ++ NL.
Proof.
  intros H. destruct (fragmentMarshal_closing v b H) as [x [c [-> Hc]]].
  unfold json_indent, fragmentIndent. rewrite stripNewline_app.
  now rewrite (stripNewline_closing _ c (lastChar_app x c) Hc).
Defined.

Lemma fragmentIndent_end (v : GoValue) (b body : string) :
  fragmentMarshal v = inl b -> json_indent fragmentIndent b <> body ++ NL.
Proof.
  intros H Heq. destruct (fragmentMarshal_closing v b H) as [x [c [-> Hc]]].
  unfold json_indent, fragmentIndent in Heq.
  rewrite (stripNewline_closing _ c (lastChar_app x c) Hc) in Heq.
  pose proof (indentWalk_closing "" "  " x c Hc) as Hlast.
  rewrite Heq in Hlast. unfold NL in Hlast. rewrite lastChar_app in Hlast.
  inversion Hlast; subst c. discriminate.
Defined.

(** [TestOutputChanged], first call: no snapshot yet, the match passes and
    the snapshot holds [hello]. *)
Lemma Match_first_run_hello :
  exists w' : World,
    Match plainTable testOutputChanged (MemReader (bytes "hello") None) []
      emptyWorld = (Ret (true, ""), w')
    /\ files w' !! outputTxt = Some (bytes "hello").
Proof.
  apply (proj2 (Match_first_run plainTable testOutputChanged (bytes "hello") []
                  emptyWorld (not_in_empty _) eq_refl (not_in_empty _)
                  (not_in_empty _)));
    reflexivity.
Defined.

(** The first run with a comparator that rejects everything does not pass. *)
Lemma Match_first_run_rejected :
  fst (Match plainTable testOutputChanged (MemReader (bytes "hello") None)
         [WithComparator rejectAll] emptyWorld)
  = Ret (false, "never equal")
  /\ fst (Match plainTable testOutputChanged (MemReader (bytes "hello") None)
            [WithComparator rejectAll] emptyWorld)
     <> Ret (true, "").
Proof. split; [vm_compute; reflexivity|vm_compute; discriminate]. Qed.

(** The first run on a stream that breaks after [he]: the test is aborted
    and the artifact is left with the bytes read so far. *)
Lemma Match_first_run_broken_stream :
  let result := Match plainTable testOutputChanged (brokenAfter "he") []
                  emptyWorld in
  fst result
  = Fatal ("failed to write to newly created snapshot file: " ++ outputTxt
             ++ ": unexpected EOF")
  /\ files (snd result) !! outputTxt = Some (bytes "he").
Proof. split; vm_compute; reflexivity. Qed.

(** [TestOutputChanged], third call: the snapshot holds [hello], the
    output is [world]. *)
Lemma Match_hello_world :
  exists w' : World,
    Match plainTable testOutputChanged (MemReader (bytes "world") None) []
      helloWorld
    = (Ret (false, "expected " ++ DQUOTE ++ "hello" ++ DQUOTE
                     ++ ", got " ++ DQUOTE ++ "world" ++ DQUOTE), w').
Proof.
  destruct (Match_existing_default plainTable testOutputChanged
              (bytes "hello") (bytes "world") [] helloWorld
              (not_in_empty _) eq_refl eq_refl eq_refl)
    as [ok [msg [w' [Hrun [Hok [Hmsg _]]]]]].
  exists w'. rewrite Hrun, Hmsg. destruct ok.
  - destruct Hok as [Hok _]. discriminate (Hok eq_refl).
  - reflexivity.
Defined.

(** [TestInputChanged]: the first load creates the snapshot from [hello],
    the second is given [world] and still reads [hello]; so does a second
    load with any other creator. *)
Lemma loadTwice_hello :
  exists w' : World, forall g2 : SnapshotCreator,
    loadTwice plainTable testInputChanged [] (readerOf "hello") g2 emptyWorld
    = (Ret ("hello", "hello"), w').
Proof.
  apply (proj2 (proj2 (GetTestInput_existing_ignores_creator plainTable
                         testInputChanged [] emptyWorld))
           (readerOf "hello") (bytes "hello") None
           (set_logs ["input snapshot filename: " ++ inputTxt] emptyWorld)
           (not_in_empty _) eq_refl eq_refl (not_in_empty _) (not_in_empty _)
           (not_in_empty _)).
Defined.

(** Two loads in a row with creators for [hello] and [world], the second
    stream read before the first: the second load does not run its creator
    and finds the artifact the first load made, still empty, so what it
    yields is the empty text and not [hello]. *)
Lemma loadTwice_second_reads_nothing :
  let r := loadTwiceReadLate plainTable testInputChanged []
             (readerOf "hello") (readerOf "world") emptyWorld in
  fst r = Ret ("hello", "")
  /\ fst r <> Ret ("hello", "hello")
  /\ files (snd r) !! inputTxt = Some (bytes "hello").
Proof.
  split; [vm_compute; reflexivity|].
  split; [vm_compute; discriminate|vm_compute; reflexivity].
Qed.

(** A load with no snapshot and no creator is fatal. *)
Lemma GetTestInput_missing_example :
  exists (msg : string) (w' : World),
    GetTestInput plainTable testInputChanged [] emptyWorld = (Fatal msg, w')
    /\ files w' = files emptyWorld
    /\ (inputTxt ∉ open_denied emptyWorld ->
        msg = "snapshot file " ++ strconv_Quote plainTable inputTxt
                ++ " does not exist and no CreateSnapshot option was provided").
Proof.
  apply (GetTestInput_missing_is_fatal plainTable testInputChanged []
           emptyWorld eq_refl eq_refl).
Defined.

(** A load that creates the snapshot from [hello]: empty on return, full
    after the read. *)
Lemma GetTestInput_persists_hello :
  exists (out : Reader) (w2 : World),
    GetTestInput plainTable testInputChanged
      [WithInputSnapshotReader (MemReader (bytes "hello") None)] emptyWorld
    = (Ret out,
       inputCreated inputTxt
         (set_logs ["input snapshot filename: " ++ inputTxt] emptyWorld))
    /\ files (inputCreated inputTxt
                (set_logs ["input snapshot filename: " ++ inputTxt] emptyWorld))
         !! inputTxt = Some []
    /\ readAll out
         (inputCreated inputTxt
            (set_logs ["input snapshot filename: " ++ inputTxt] emptyWorld))
       = (Ret (bytes "hello", None), w2)
    /\ files w2 !! inputTxt = Some (bytes "hello").
Proof.
  apply (GetTestInput_persists_on_read plainTable testInputChanged
           [WithInputSnapshotReader (MemReader (bytes "hello") None)]
           (readerOf "hello") (bytes "hello") None emptyWorld
           (set_logs ["input snapshot filename: " ++ inputTxt] emptyWorld)
           (not_in_empty _) eq_refl eq_refl eq_refl (not_in_empty _)
           (not_in_empty _)).
Defined.

(** When [GetTestInput] returns from creating the snapshot of [hello], the
    artifact exists and is empty: the creator's bytes are not in it. *)
Lemma GetTestInput_returns_before_persisting :
  let r := GetTestInput plainTable testInputChanged
             [WithInputSnapshotReader (MemReader (bytes "hello") None)]
             emptyWorld in
  fst r = Ret (TeeReader (MemReader (bytes "hello") None) 0)
  /\ files (snd r) !! inputTxt = Some []
  /\ files (snd r) !! inputTxt <> Some (bytes "hello").
Proof.
  split; [vm_compute; reflexivity|].
  split; [vm_compute; reflexivity|vm_compute; discriminate].
Qed.

(** [TestRoundTrip]: the input is created from [hello] and matched, as a
    tee, against a snapshot that does not exist yet; the match passes and
    both artifacts hold [hello]. *)
Lemma TestRoundTrip_passes :
  let t := mkT "TestRoundTrip" "/src/snapshot/snapshot_test.go" in
  let result :=
    (do input <- GetTestInput plainTable t
                   [WithInputSnapshotReader (MemReader (bytes "hello") None)];
     Match plainTable t input []) emptyWorld in
  fst result = Ret (true, "")
  /\ files (snd result) !! "/src/snapshot/__snapshots__/TestRoundTrip/input.txt"
     = Some (bytes "hello")
  /\ files (snd result) !! "/src/snapshot/__snapshots__/TestRoundTrip/output.txt"
     = Some (bytes "hello").
Proof. repeat split; vm_compute; reflexivity. Qed.

(** A fixture created with [WithCreateSnapshotAsJSON]: the caller reads
    the text [TestAsJSON] expects, and the artifact, named [input.json],
    holds it once the stream was read. *)
Lemma fixture_from_AsJSON :
  let t := mkT "TestFixture" "/src/snapshot/snapshot_test.go" in
  let result :=
    (do input <- GetTestInput plainTable t
                   [WithCreateSnapshotAsJSON fragmentMarshal fragmentIndent
                      mkTestStruct];
     readToStringUnchecked input) emptyWorld in
  fst result = Ret testAsJSON_expected
  /\ files (snd result) !! "/src/snapshot/__snapshots__/TestFixture/input.json"
     = Some (bytes testAsJSON_expected).
Proof. split; vm_compute; reflexivity. Qed.

(** [CmpDiffComparator] on two readers of [hello] fails. *)
Lemma CmpDiffComparator_hello_hello :
  exists msg : string,
    CmpDiffComparator lineReport (MemReader (bytes "hello") None)
      (MemReader (bytes "hello") None) emptyWorld
    = (Ret (false, msg), emptyWorld)
    /\ msg <> "".
Proof.
  apply (CmpDiffComparator_never_passes lineReport lineReport_nonempty
           (MemReader (bytes "hello") None) (MemReader (bytes "hello") None)
           (bytes "hello") (bytes "hello") emptyWorld emptyWorld emptyWorld
           eq_refl eq_refl).
Defined.

(** [StringComparator] whose expected stream breaks after [he]. *)
Lemma StringComparator_broken_expected :
  StringComparator plainTable (brokenAfter "he")
    (MemReader (bytes "hello") None) emptyWorld
  = (Ret (false, "failed to read expected data from reader: unexpected EOF"),
     emptyWorld).
Proof.
  apply (proj1 (proj1 (comparators_report_read_failure plainTable lineReport)
                  (brokenAfter "he") (MemReader (bytes "hello") None) emptyWorld)
           (bytes "he") "unexpected EOF" emptyWorld eq_refl).
Defined.

(** The invariant of the result at two readers of different texts. *)
Lemma StringDiffComparator_invariant_example :
  exists (ok : bool) (msg : string) (w' : World),
    StringDiffComparator lineReport (MemReader (bytes "hello") None)
      (MemReader (bytes "world") None) emptyWorld
    = (Ret (ok, msg), w')
    /\ (msg = "" <-> ok = true).
Proof.
  apply (proj1 (proj2 (comparison_result_invariant plainTable lineReport))
           (MemReader (bytes "hello") None) (MemReader (bytes "world") None)
           emptyWorld eq_refl eq_refl).
Defined.

(** [TestAsJSON], callable input: [mkTestStruct] is called and its value
    serialised; a callable of two results is refused. *)
Lemma AsJSON_callable_example :
  AsJSON fragmentMarshal fragmentIndent
    (VFunc "func() snapshot.testStruct" 0 [mkTestStruct])
  = Ret (MemReader (bytes testAsJSON_expected) None, None)
  /\ AsJSON fragmentMarshal fragmentIndent
       (VFunc "func() (bool, bool)" 0 [VBool true; VBool false])
     = Ret (NilReader, Some arity_error).
Proof.
  split.
  - apply (proj1 (proj2 (proj1 (AsJSON_callable fragmentMarshal fragmentIndent
                                  fragmentIndent_newline
                                  "func() snapshot.testStruct" [mkTestStruct])
                           mkTestStruct eq_refl))
             _ eq_refl).
  - apply (proj2 (AsJSON_callable fragmentMarshal fragmentIndent
                    fragmentIndent_newline "func() (bool, bool)"
                    [VBool true; VBool false])).
    simpl. lia.
Defined.

(** A callable that returns exactly one value, a channel: the
    serialisation fails, with an encoding error. *)
Lemma AsJSON_single_channel_fails :
  AsJSON fragmentMarshal fragmentIndent
    (VFunc "func() chan int" 0 [VChan "chan int"])
  = Ret (MemReader [] None,
         Some "failed to encode snapshot as JSON: json: unsupported type: chan int").
Proof. reflexivity. Qed.

(** [TestAsJSON], non-callable input: the text expected by the test, which
    ends in one newline. *)
Lemma AsJSON_testStruct_bytes :
  exists (v : GoValue) (b : string),
    serialises mkTestStruct v
    /\ json_Marshal fragmentMarshal v = inl b
    /\ MemReader (bytes testAsJSON_expected) None
       = MemReader (list_ascii_of_string (json_indent fragmentIndent b)
                      ++ [ascii_of_N 10]) None
    /\ (forall body : string, json_indent fragmentIndent b <> body ++ NL).
Proof.
  apply (AsJSON_success_bytes fragmentMarshal fragmentIndent
           fragmentIndent_newline fragmentIndent_end mkTestStruct
           (MemReader (bytes testAsJSON_expected) None) eq_refl).
Defined.

(* ===================================================================== *)
(** ** File names chosen by WithSnapshotFilename *)
(* ===================================================================== *)

Lemma ext_scan_suffix (r acc : list ascii) :
  exists pre : list ascii, (rev r ++ acc)%list = (pre ++ ext_scan acc r)%list.
Proof.
  revert acc. induction r as [|c r IH]; intros acc.
  - exists acc. simpl. now rewrite app_nil_r.
  - simpl ext_scan. destruct (Ascii.eqb c "/").
    + exists (rev (c :: r) ++ acc)%list. now rewrite app_nil_r.
    + destruct (Ascii.eqb c ".").
      * exists (rev r). simpl. now rewrite <- app_assoc.
      * destruct (IH (c :: acc)) as [pre Hpre]. exists pre.
        simpl. rewrite <- app_assoc. exact Hpre.
Qed.


Lemma string_of_list_ascii_app (a b : list ascii) :
  string_of_list_ascii (a ++ b) = string_of_list_ascii a ++ string_of_list_ascii b.
Proof.
  induction a as [|c a IH]; [reflexivity|].
  change (String c (string_of_list_ascii (a ++ b))
          = String c (string_of_list_ascii a ++ string_of_list_ascii b)).
  now rewrite IH.
Qed.

(** Cutting the extension off a file name and putting it back gives the
    file name. *)
Lemma TrimSuffix_Ext (filename : string) :
  strings_TrimSuffix filename (filepath_Ext filename) ++ filepath_Ext filename
  = filename.
Proof.
  unfold strings_TrimSuffix, strings_HasSuffix, filepath_Ext.
  set (l := list_ascii_of_string filename).
  destruct (ext_scan_suffix (rev l) []) as [pre Hpre].
  rewrite rev_involutive, app_nil_r in Hpre.
  set (x := ext_scan [] (rev l)) in *.
  rewrite list_ascii_of_string_of_list_ascii.
  assert (Hlen : length l - length x = length pre).
  { rewrite Hpre, length_app. lia. }
  rewrite Hlen.
  assert (Hle : (length x <=? length l)%nat = true).
  { apply Nat.leb_le. rewrite Hpre, length_app. lia. }
  rewrite Hle. simpl andb.
  assert (Hdrop : drop (length pre) l = x).
  { rewrite Hpre. now rewrite drop_app_length. }
  rewrite (bool_decide_eq_true_2 _ Hdrop).
  assert (Htake : take (length pre) l = pre).
  { rewrite Hpre. now rewrite take_app_length. }
  rewrite Htake. rewrite <- string_of_list_ascii_app. rewrite <- Hpre.
  apply string_of_list_ascii_of_string.
Qed.















(** A file name that climbs out of the test's directory: the path is
    cleaned, and does not end in the file name as it was given. *)
Lemma WithSnapshotFilename_parent_directory :
  inputPath testInputChanged [WithSnapshotFilename "../x.txt"]
  = "/src/snapshot/__snapshots__/x.txt".
Proof. vm_compute. reflexivity. Qed.

(** X12. The three shared options of the options file change the options of
    [GetTestInput] and of [Match] alike, and leave creator, comparator and
    normaliser alone; with [WithSnapshotFilename] both sides get a name
    and an extension that together are the file name. *)
Theorem SnapshotOptions_keep_in_step :
  (forall name : string, Options.keepsInStep (Options.WithSnapshotName name))
  /\ (forall ext : string,
        Options.keepsInStep (Options.WithSnapshotFileExtension ext))
  /\ (forall filename : string,
        Options.keepsInStep (Options.WithSnapshotFilename filename)
        /\ forall (io : GetTestInputOptions) (mo : MatchOptions),
             let io' := Options.ApplyInputOption
                          (Options.WithSnapshotFilename filename) io in
             let mo' := Options.ApplyMatchOption
                          (Options.WithSnapshotFilename filename) mo in
             in_SnapshotName io' ++ in_FileExtension io' = filename
             /\ out_SnapshotName mo' ++ out_FileExtension mo' = filename).
Proof.
  split; [|split].
  - intros name io mo. repeat split; try reflexivity; simpl; intros; assumption.
  - intros ext io mo. repeat split; try reflexivity; simpl; intros; assumption.
  - intros filename. split.
    + intros io mo. repeat split; reflexivity.
    + intros io mo. split; apply TrimSuffix_Ext.
Qed.

(** Some file names and how they are split. *)
Lemma WithSnapshotFilename_examples :
  let split := fun f =>
    let o := WithSnapshotFilename f (mkGetTestInputOptions "input" ".txt" None) in
    (in_SnapshotName o, in_FileExtension o) in
  split "data.tar.gz" = ("data.tar", ".gz")
  /\ split "README" = ("README", "")
  /\ split ".hidden" = ("", ".hidden")
  /\ split "v1.2/case" = ("v1.2/case", "").
Proof. repeat split; vm_compute; reflexivity. Qed.

(* ===================================================================== *)
(** ** ScanSum *)
(* ===================================================================== *)

Lemma wrap64_small (z : Z) : (- 2 ^ 63 <= z < 2 ^ 63)%Z -> wrap64 z = z.
Proof. intros H. unfold wrap64. rewrite Z.mod_small; lia. Qed.

Lemma triangular_step (i : Z) : (triangular (i - 1) + i = triangular i)%Z.
Proof.
  unfold triangular.
  replace (i * (i + 1))%Z with ((i - 1) * (i - 1 + 1) + i * 2)%Z by ring.
  now rewrite Z.div_add by lia.
Qed.

Lemma triangular_mono (i j : Z) :
  (0 <= i <= j)%Z -> (0 <= triangular i <= triangular j)%Z.
Proof.
  intros H. unfold triangular. split.
  - apply Z.div_pos; nia.
  - apply Z.div_le_mono; nia.
Qed.

Lemma scanFrom_lookup (input : list Z) :
  forall (i : Z) (k : nat),
    (0 <= i)%Z -> k < length input ->
    (triangular (i + Z.of_nat k) < 2 ^ 63)%Z ->
    scanFrom i (triangular (i - 1)) input !! k
    = Some (triangular (i + Z.of_nat k)).
Proof.
  induction input as [|x rest IH]; intros i k Hi Hk Hbound; simpl in Hk; [lia|].
  assert (Hhead : wrap64 (triangular (i - 1) + i) = triangular i).
  { rewrite triangular_step. apply wrap64_small.
    pose proof (triangular_mono i (i + Z.of_nat k)). lia. }
  simpl scanFrom. rewrite Hhead. destruct k as [|k].
  - simpl. now rewrite Z.add_0_r.
  - simpl lookup.
    replace (triangular i) with (triangular (i + 1 - 1)) by (f_equal; lia).
    rewrite IH; [f_equal; f_equal; lia|lia|lia|].
    replace (i + 1 + Z.of_nat k)%Z with (i + Z.of_nat (S k))%Z by lia.
    exact Hbound.
Qed.

Lemma scanFrom_length (input : list Z) :
  forall i s : Z, length (scanFrom i s input) = length input.
Proof. induction input as [|x rest IH]; intros i s; simpl; [|rewrite IH]; reflexivity. Qed.

(** X16. [ScanSum] adds up the positions, not the elements: the result is as
    long as the input and, as long as the sum fits in an int, its entry at
    position [k] is [k (k + 1) / 2], whatever the input holds. *)
Theorem ScanSum_sums_positions (input : list Z) (k : nat) :
  k < length input ->
  (triangular (Z.of_nat k) < 2 ^ 63)%Z ->
  length (ScanSum input) = length input
  /\ ScanSum input !! k = Some (triangular (Z.of_nat k)).
Proof.
  intros Hk Hbound. split; [apply scanFrom_length|].
  unfold ScanSum.
  change 0%Z with (triangular (0 - 1)) at 2.
  now rewrite (scanFrom_lookup input 0 k) by (try lia; exact Hbound).
Qed.

(* ===================================================================== *)
(** ** The further statements at concrete inputs *)
(* ===================================================================== *)

Lemma in_singleton (p : string) : p ∈ ({[p]} : gset string).
Proof. apply elem_of_singleton. reflexivity. Defined.

(** [TestOutputChanged] from its first call to its third. *)
Lemma Match_hello_then_world :
  exists w1 w2 : World,
    Match plainTable testOutputChanged (MemReader (bytes "hello") None) []
      emptyWorld = (Ret (true, ""), w1)
    /\ Match plainTable testOutputChanged (MemReader (bytes "world") None) [] w1
       = (Ret (textVerdict plainTable (bytes "hello") (bytes "world")), w2)
    /\ files w2 !! outputTxt = Some (bytes "hello").
Proof.
  apply (Match_after_first_run plainTable testOutputChanged (bytes "hello")
           (bytes "world") [] emptyWorld (not_in_empty _) eq_refl
           (not_in_empty _) (not_in_empty _) eq_refl eq_refl).
Defined.

Lemma Match_hands_over_example :
  exists (w1 w2 : World) (file : nat),
    Match plainTable testOutputChanged (MemReader (bytes "world") None)
      [WithComparator rejectAll] helloWorld
    = (do expected' <- NopReaderNormaliser (FileReader file);
       do actual' <- NopReaderNormaliser (MemReader (bytes "world") None);
       rejectAll expected' actual') w1
    /\ files w1 = files helloWorld
    /\ dirs w1 = dirs helloWorld
    /\ fds w1 = (fds helloWorld ++ [mkOpenFile outputTxt 0])%list
    /\ file = length (fds helloWorld)
    /\ readAll (FileReader file) w1 = (Ret (bytes "hello", None), w2).
Proof.
  apply (Match_existing_hands_over plainTable testOutputChanged
           (MemReader (bytes "world") None) (bytes "hello")
           [WithComparator rejectAll] helloWorld (not_in_empty _) eq_refl).
Defined.

Lemma Match_locked_snapshot :
  exists (msg : string) (w' : World),
    Match plainTable testOutputChanged (MemReader (bytes "hello") None) []
      lockedWorld = (Panic msg, w')
    /\ files w' = files lockedWorld.
Proof.
  apply (Match_unopenable_panics plainTable testOutputChanged
           (MemReader (bytes "hello") None) [] lockedWorld (in_singleton _)
           eq_refl eq_refl).
Defined.

Lemma Match_read_only_storage :
  exists (msg : string) (w' : World),
    Match plainTable testOutputChanged (MemReader (bytes "hello") None) []
      readOnlyWorld = (Fatal msg, w')
    /\ files w' = files readOnlyWorld /\ fds w' = fds readOnlyWorld.
Proof.
  apply (Match_cannot_create_is_fatal plainTable testOutputChanged
           (MemReader (bytes "hello") None) [] readOnlyWorld (not_in_empty _)
           eq_refl (or_intror (in_singleton _))).
Defined.

Lemma Match_first_run_broken_example :
  exists w' : World,
    Match plainTable testOutputChanged (brokenAfter "he") [] emptyWorld
    = (Fatal ("failed to write to newly created snapshot file: " ++ outputTxt
                ++ ": " ++ "unexpected EOF"), w')
    /\ files w' !! outputTxt = Some (bytes "he").
Proof.
  apply (Match_first_run_read_error plainTable testOutputChanged (bytes "he")
           "unexpected EOF" [] emptyWorld (not_in_empty _) eq_refl
           (not_in_empty _) (not_in_empty _)).
Defined.

Lemma Match_existing_broken_example :
  exists w' : World,
    Match plainTable testOutputChanged (brokenAfter "he") [] helloWorld
    = (Ret (false, "failed to read actual data from reader: " ++ "unexpected EOF"),
       w')
    /\ files w' = files helloWorld.
Proof.
  apply (Match_existing_read_error plainTable testOutputChanged (bytes "hello")
           (bytes "he") "unexpected EOF" [] helloWorld (not_in_empty _) eq_refl
           eq_refl eq_refl).
Defined.

Lemma Match_StringDiff_example :
  exists (ok : bool) (msg : string) (w' : World),
    Match plainTable testOutputChanged (MemReader (bytes "hello") None)
      [WithComparator (StringDiffComparator lineReport)] helloWorld
    = (Ret (ok, msg), w')
    /\ (ok = true <-> bytes "hello" = bytes "hello")
    /\ (msg = "" <-> ok = true)
    /\ files w' = files helloWorld.
Proof.
  apply (Match_existing_StringDiff plainTable lineReport lineReport_nonempty
           testOutputChanged (bytes "hello") (bytes "hello")
           [WithComparator (StringDiffComparator lineReport)] helloWorld
           (not_in_empty _) eq_refl eq_refl eq_refl).
Defined.

Lemma GetTestInput_failing_creator :
  GetTestInput plainTable testInputChanged [WithCreateSnapshot failingCreator]
    emptyWorld
  = (Fatal ("snapshot creator failed with an error " ++ "source unavailable"),
     set_logs ["input snapshot filename: " ++ inputTxt;
               "snapshot creator failed with an error " ++ "source unavailable"]
       emptyWorld).
Proof.
  apply (GetTestInput_creator_error plainTable testInputChanged
           [WithCreateSnapshot failingCreator] failingCreator NilReader
           "source unavailable" emptyWorld
           (set_logs ["input snapshot filename: " ++ inputTxt] emptyWorld)
           (not_in_empty _) eq_refl eq_refl eq_refl).
Defined.

Lemma GetTestInput_read_only_storage :
  exists (msg : string) (w' : World),
    GetTestInput plainTable testInputChanged [WithCreateSnapshot (readerOf "hello")]
      readOnlyInputWorld = (Fatal msg, w')
    /\ files w' = files readOnlyInputWorld /\ fds w' = fds readOnlyInputWorld.
Proof.
  apply (GetTestInput_cannot_create_is_fatal plainTable testInputChanged
           [WithCreateSnapshot (readerOf "hello")] (readerOf "hello")
           (MemReader (bytes "hello") None) readOnlyInputWorld
           (set_logs ["input snapshot filename: " ++ inputTxt] readOnlyInputWorld)
           (not_in_empty _) eq_refl eq_refl eq_refl
           (or_intror (in_singleton _))).
Defined.

Lemma GetTestInput_locked_snapshot :
  GetTestInput plainTable testInputChanged [WithCreateSnapshot (readerOf "world")]
    lockedInputWorld
  = (Fatal "error opening input snapshot file",
     set_logs ["input snapshot filename: " ++ inputTxt;
               "error opening input snapshot file"] lockedInputWorld).
Proof.
  apply (GetTestInput_unopenable_is_fatal plainTable testInputChanged
           [WithCreateSnapshot (readerOf "world")] lockedInputWorld
           (in_singleton _)).
Defined.

Lemma StringComparator_hello_world :
  StringComparator plainTable (MemReader (bytes "hello") None)
    (MemReader (bytes "world") None) emptyWorld
  = (Ret (false, "expected " ++ (DQUOTE ++ "hello" ++ DQUOTE)
                   ++ ", got " ++ (DQUOTE ++ "world" ++ DQUOTE)), emptyWorld).
Proof.
  apply (StringComparator_plain_message plainTable "hello" "world" emptyWorld
           eq_refl eq_refl).
  discriminate.
Defined.

Lemma GetTestInput_AsJSON_example :
  let fns := [WithCreateSnapshotAsJSON fragmentMarshal fragmentIndent mkTestStruct] in
  let p := "/src/snapshot/__snapshots__/TestInputChanged/input.json" in
  inputPath testInputChanged fns = p
  /\ exists (input : Reader) (w1 w2 : World),
       GetTestInput plainTable testInputChanged fns emptyWorld = (Ret input, w1)
       /\ readAll input w1 = (Ret (bytes testAsJSON_expected, None), w2)
       /\ files w2 !! p = Some (bytes testAsJSON_expected).
Proof.
  intros fns p.
  destruct (GetTestInput_AsJSON_fixture plainTable fragmentMarshal fragmentIndent
              testInputChanged [] mkTestStruct emptyWorld (not_in_empty _)
              eq_refl) as [Hp [_ Hok]].
  split; [exact Hp|].
  destruct (Hok (MemReader (bytes testAsJSON_expected) None) eq_refl
              (not_in_empty _) (not_in_empty _))
    as [d [input [w1 [w2 [Hd [Hrun [Hread Hfile]]]]]]].
  injection Hd as Hd. rewrite <- Hd in Hread, Hfile.
  exists input, w1, w2. split; [exact Hrun|]. split; [exact Hread|exact Hfile].
Defined.

(** [TestAsJSON]'s value as a snapshot and as a fixture: the snapshot that
    [Match] creates from the stream holds the text the test expects, which
    ends in a newline; the fixture holds it once the stream was read. *)
Lemma AsJSON_testStruct_artifacts :
  let fns := [WithCreateSnapshotAsJSON fragmentMarshal fragmentIndent mkTestStruct] in
  let pin := "/src/snapshot/__snapshots__/TestInputChanged/input.json" in
  let pout := "/src/snapshot/__snapshots__/TestInputChanged/output.txt" in
  let text := bytes testAsJSON_expected in
  (exists body : list ascii, text = (body ++ [ascii_of_N 10])%list)
  /\ (exists w' : World,
        Match plainTable testInputChanged (MemReader text None) [] emptyWorld
        = (Ret (true, ""), w')
        /\ files w' !! pout = Some text)
  /\ (exists (input : Reader) (w1 w2 : World),
        GetTestInput plainTable testInputChanged fns emptyWorld = (Ret input, w1)
        /\ files w1 !! pin = Some []
        /\ readAll input w1 = (Ret (text, None), w2)
        /\ files w2 !! pin = Some text).
Proof.
  intros fns pin pout text.
  destruct (AsJSON_artifacts_end_with_newline plainTable fragmentMarshal
              fragmentIndent fragmentIndent_newline fragmentIndent_end
              testInputChanged mkTestStruct (MemReader text None) eq_refl)
    as [v [b [_ [_ [Hout [_ [Hmatch Hload]]]]]]].
  assert (Htext : (list_ascii_of_string (fragmentIndent "" "  " b)
                     ++ [ascii_of_N 10])%list = text)
    by (injection Hout as Hout'; symmetry; exact Hout').
  rewrite Htext in Hmatch, Hload.
  split; [eexists; symmetry; exact Htext|]. split.
  - exact (proj2 (Hmatch [] emptyWorld (not_in_empty _) eq_refl
                    (not_in_empty _) (not_in_empty _)) eq_refl eq_refl).
  - exact (Hload [] emptyWorld (not_in_empty _) eq_refl (not_in_empty _)
             (not_in_empty _)).
Defined.

(** A fixture made with [WithCreateSnapshotAsJSON] from [TestAsJSON]'s value:
    [AsJSON] succeeds, and when [GetTestInput] returns the artifact exists
    and is empty, so it does not end with a newline. *)
Lemma GetTestInput_AsJSON_empty_at_return :
  let fns := [WithCreateSnapshotAsJSON fragmentMarshal fragmentIndent mkTestStruct] in
  let pin := "/src/snapshot/__snapshots__/TestInputChanged/input.json" in
  let r := GetTestInput plainTable testInputChanged fns emptyWorld in
  AsJSON fragmentMarshal fragmentIndent mkTestStruct
  = Ret (MemReader (bytes testAsJSON_expected) None, None)
  /\ fst r = Ret (TeeReader (MemReader (bytes testAsJSON_expected) None) 0)
  /\ files (snd r) !! pin = Some []
  /\ (forall body : list ascii,
        files (snd r) !! pin <> Some (body ++ [ascii_of_N 10])%list).
Proof.
  split; [vm_compute; reflexivity|].
  split; [vm_compute; reflexivity|].
  split; [vm_compute; reflexivity|].
  intros body H.
  assert (Hempty : files (snd (GetTestInput plainTable testInputChanged
                     [WithCreateSnapshotAsJSON fragmentMarshal fragmentIndent
                        mkTestStruct] emptyWorld))
                   !! "/src/snapshot/__snapshots__/TestInputChanged/input.json"
                   = Some []) by (vm_compute; reflexivity).
  rewrite Hempty in H. injection H as H. now destruct body.
Qed.

(** An input named [./output] is the output artifact: both paths are
    cleaned to the same one. *)
Lemma inputPath_dot_output :
  inputPath testRoundTrip [WithInputSnapshotName "./output"]
  = outputPath plainTable testRoundTrip [].
Proof. vm_compute. reflexivity. Qed.

Lemma TestRoundTrip_first_run :
  exists w' : World,
    loadAndMatch plainTable testRoundTrip
      [WithInputSnapshotReader (MemReader (bytes "hello") None)] [] emptyWorld
    = (Ret (true, ""), w')
    /\ files w' !! roundTripInputTxt = Some (bytes "hello")
    /\ files w' !! roundTripOutputTxt = Some (bytes "hello").
Proof.
  apply (loadAndMatch_first_run plainTable testRoundTrip
           [WithInputSnapshotReader (MemReader (bytes "hello") None)] []
           (readerOf "hello") (bytes "hello") emptyWorld
           (set_logs ["input snapshot filename: " ++ roundTripInputTxt] emptyWorld));
    try reflexivity; try apply not_in_empty.
  discriminate.
Defined.

Lemma ScanSum_of_fives :
  length (ScanSum [5; 5; 5; 5]%Z) = 4
  /\ ScanSum [5; 5; 5; 5]%Z !! 3 = Some 6%Z.
Proof.
  apply (ScanSum_sums_positions [5; 5; 5; 5]%Z 3); [simpl; lia|reflexivity].
Defined.

(** [TestRoundTrip] when both snapshots hold [hello]. *)
Lemma TestRoundTrip_later_run :
  exists w' : World,
    loadAndMatch plainTable testRoundTrip [] [] roundTripWorld
    = (Ret (textVerdict plainTable (bytes "hello") (bytes "hello")), w')
    /\ files w' = files roundTripWorld.
Proof.
  apply (loadAndMatch_later_run plainTable testRoundTrip [] [] (bytes "hello")
           (bytes "hello") roundTripWorld);
    [apply not_in_empty | vm_compute; reflexivity
    | apply not_in_empty | vm_compute; reflexivity
    | reflexivity | reflexivity].
Defined.

(** [TestInputChanged] without the read of the first input: the second
    input is empty. *)
Lemma loadTwice_unread_hello :
  exists w' : World,
    (forall g2 : SnapshotCreator,
        loadTwiceUnread plainTable testInputChanged [] (readerOf "hello") g2
          emptyWorld = (Ret "", w'))
    /\ files w' !! inputTxt = Some [].
Proof.
  apply (loadTwice_without_reading plainTable testInputChanged []
           (readerOf "hello") (bytes "hello") None emptyWorld
           (set_logs ["input snapshot filename: " ++ inputTxt] emptyWorld)
           (not_in_empty _) eq_refl eq_refl (not_in_empty _) (not_in_empty _)
           (not_in_empty _)).
Defined.
